(** * Climate Risk Wizard: the request orchestration core

    A shallow embedding of [src/lib/api/orchestrator.ts],
    [src/contracts/dashboard.ts], [src/pages/api/wizard/dashboard.ts] and
    the drift effect of [src/components/wizard/WizardFlow.tsx], with the
    properties of the specification stated over it.

    JavaScript strings are sequences of UTF-16 code units and are modelled
    as [list N]; [lit] embeds an ASCII literal.  Numbers that the program
    only compares with integer bounds are modelled by the rational value of
    the double ([Q]); clock readings and durations are integers. *)

From Stdlib Require Import ZArith NArith QArith List String Ascii Lia.
From stdpp Require Import base option list gmap sorting.

Set Warnings "-register-all".
Local Open Scope string_scope.
Local Open Scope list_scope.
Local Open Scope Z_scope.

(* ================================================================== *)
(** ** JavaScript strings *)
(* ================================================================== *)

Abbreviation jsstring := (list N).

Definition lit (s : string) : jsstring :=
  map N_of_ascii (list_ascii_of_string s).

(** [x < y] on strings: lexicographic on code units. *)
Fixpoint str_ltb (a b : jsstring) : bool :=
  match a, b with
  | _, [] => false
  | [], _ :: _ => true
  | x :: a', y :: b' =>
      if (x <? y)%N then true
      else if (y <? x)%N then false
      else str_ltb a' b'
  end.

(** The default comparator of [Array.prototype.sort] on strings. *)
Definition sortCompare (x y : jsstring) : Z :=
  if str_ltb x y then -1 else if str_ltb y x then 1 else 0.

Definition sort_le (x y : jsstring) : Prop := sortCompare x y <= 0.

Global Instance sort_le_dec x y : Decision (sort_le x y).
Proof. unfold sort_le. apply _. Defined.

(** [arr.sort()] with the default comparator.  The language requires a
    stable sort that orders by the comparator; on a total order whose ties
    are equal strings every such sort returns the same array, so the
    merge sort below stands for whichever algorithm the engine runs. *)
Definition sort (l : list jsstring) : list jsstring := merge_sort sort_le l.

(** [arr.join(sep)] on an array of strings. *)
Fixpoint join (sep : jsstring) (l : list jsstring) : jsstring :=
  match l with
  | [] => []
  | x :: r =>
      match r with
      | [] => x
      | _ :: _ => x ++ sep ++ join sep r
      end
  end.

(** [arr.join(sep)] when elements may be [undefined], which join as the
    empty string. *)
Definition join_opt (sep : jsstring) (l : list (option jsstring)) : jsstring :=
  join sep (map (default []) l).

(** Digits of a non-negative integer in a radix up to 36, as
    [Number.prototype.toString(radix)] prints them. *)
Definition digit_char (d : Z) : N :=
  if d <? 10 then Z.to_N (48 + d) else Z.to_N (87 + d).

Fixpoint digits_fuel (fuel : nat) (radix n : Z) (acc : jsstring) : jsstring :=
  match fuel with
  | O => acc
  | S f =>
      let acc' := digit_char (n mod radix) :: acc in
      if n / radix =? 0 then acc' else digits_fuel f radix (n / radix) acc'
  end.

Definition toString_radix (radix n : Z) : jsstring :=
  digits_fuel (S (Z.to_nat (Z.log2 n))) radix n [].

Definition nat_to_string (n : nat) : jsstring := toString_radix 10 (Z.of_nat n).

(** Integers printed in decimal, with a sign. *)
Definition Z_to_string (z : Z) : jsstring :=
  if z <? 0 then lit "-" ++ toString_radix 10 (- z) else toString_radix 10 z.

(** *** JSON.stringify on the values this program serialises *)

Definition is_high_surrogate (c : N) : bool := ((55296 <=? c) && (c <=? 56319))%N.
Definition is_low_surrogate (c : N) : bool := ((56320 <=? c) && (c <=? 57343))%N.

Definition hex4 (c : N) : jsstring :=
  let z := Z.of_N c in
  [digit_char (z / 4096 mod 16); digit_char (z / 256 mod 16);
   digit_char (z / 16 mod 16); digit_char (z mod 16)].

Definition unicodeEscape (c : N) : jsstring := lit "\u" ++ hex4 c.

Definition escape_unit (c : N) : jsstring :=
  if (c =? 8)%N then lit "\b"
  else if (c =? 9)%N then lit "\t"
  else if (c =? 10)%N then lit "\n"
  else if (c =? 12)%N then lit "\f"
  else if (c =? 13)%N then lit "\r"
  else if (c =? 34)%N then [92; 34]%N
  else if (c =? 92)%N then [92; 92]%N
  else if (c <? 32)%N then unicodeEscape c
  else [c].

Fixpoint quote_body (s : jsstring) : jsstring :=
  match s with
  | [] => []
  | c :: r =>
      if is_high_surrogate c then
        match r with
        | d :: r' =>
            if is_low_surrogate d then c :: d :: quote_body r'
            else unicodeEscape c ++ quote_body r
        | [] => unicodeEscape c
        end
      else if is_low_surrogate c then unicodeEscape c ++ quote_body r
      else escape_unit c ++ quote_body r
  end.

(** [JSON.stringify(s)] for a string [s]. *)
Definition stringify_string (s : jsstring) : jsstring :=
  [34%N] ++ quote_body s ++ [34%N].

(** [JSON.stringify(arr)] for an array of strings. *)
Definition stringify_strings (l : list jsstring) : jsstring :=
  lit "[" ++ join (lit ",") (map stringify_string l) ++ lit "]".

(** [JSON.stringify(obj)] given, for each own property in insertion order,
    the text of its value, or [None] when the value is [undefined] (such a
    property is left out). *)
Definition stringify_object (props : list (jsstring * option jsstring)) : jsstring :=
  lit "{" ++
  join (lit ",")
    (omap (fun p => match snd p with
                    | Some t => Some (stringify_string (fst p) ++ lit ":" ++ t)
                    | None => None
                    end) props) ++
  lit "}".

(* ================================================================== *)
(** ** Dataset registry and hashing *)
(* ================================================================== *)

Definition toInt32 (z : Z) : Z := (z + 2147483648) mod 4294967296 - 2147483648.

(** The loop of [hashObject]: [hash = ((hash << 5) - hash) + char;
    hash = hash & hash]. *)
Definition hash_step (hash : Z) (char : N) : Z :=
  toInt32 (toInt32 (hash * 32) - hash + Z.of_N char).

Definition hashString (str : jsstring) : jsstring :=
  toString_radix 36 (Z.abs (fold_left hash_step str 0)).

Module DatasetRegistry.

Definition versions : list (jsstring * jsstring) :=
  [ (lit "baseline", lit "CMIP6-v1.2");
    (lit "reanalysis", lit "v5.1");
    (lit "exposure", lit "gap-uw-v2.1");
    (lit "connectivity", lit "commuting-census-2020");
    (lit "observations", lit "noaa-ncei-2024.10") ].

Definition version_of (k : string) : jsstring :=
  default [] (snd <$> find (fun p => bool_decide (fst p = lit k)) versions).

End DatasetRegistry.

(** [hashObject(obj)] for an object whose values are strings. *)
Definition hashObject (obj : list (jsstring * jsstring)) : jsstring :=
  hashString
    (stringify_object (map (fun p => (fst p, Some (stringify_string (snd p)))) obj)).

Definition DatasetRegistry_hash : jsstring := hashObject DatasetRegistry.versions.

(* ================================================================== *)
(** ** Wizard inputs and the cache key *)
(* ================================================================== *)

Inductive precision := Exact | Approximate.

Global Instance precision_eq_dec : EqDecision precision.
Proof. solve_decision. Defined.

Definition precision_string (p : precision) : jsstring :=
  match p with Exact => lit "exact" | Approximate => lit "approximate" end.

(** The wizard inputs.  [normalized_location], which the orchestrator only
    passes on in the remote request body and in log records, is left out. *)
Record WizardState := {
  location_key : option jsstring;
  selected_hazards : list jsstring;
  selected_system : option jsstring;
  precision_level : option precision
}.

Definition with_hazards (s : WizardState) (h : list jsstring) : WizardState :=
  {| location_key := location_key s; selected_hazards := h;
     selected_system := selected_system s;
     precision_level := precision_level s |}.

(** [inputs.precision_level || "approximate"]. *)
Definition precision_or_default (s : WizardState) : jsstring :=
  match precision_level s with
  | Some p => precision_string p
  | None => lit "approximate"
  end.

Definition generateCacheKey (inputs : WizardState) : jsstring :=
  let hazardsKey := join (lit ",") (sort (selected_hazards inputs)) in
  let datasetVersionsHash := DatasetRegistry_hash in
  join_opt (lit ":")
    [ Some (lit "wizard");
      location_key inputs;
      Some (precision_or_default inputs);
      Some hazardsKey;
      selected_system inputs;
      Some datasetVersionsHash ].

(* ================================================================== *)
(** ** Runtime values *)
(* ================================================================== *)

(** A number: the rational value of a finite double, an infinity or NaN. *)
Inductive jsnum :=
| NaN
| Infinity (negative : bool)
| Fin (q : Q).

(** A JavaScript value made of data: no accessor properties, no proxies,
    no cycles.  [VOther t] stands for a value of one of the remaining
    runtime types (function, symbol, bigint, date, map, set, promise), of
    which the type name [t], as [getParsedType] gives it, is all that is
    ever looked at. *)
Inductive jsvalue :=
| VUndefined
| VNull
| VBool (b : bool)
| VNum (n : jsnum)
| VStr (s : jsstring)
| VArr (items : list jsvalue)
| VObj (props : list (jsstring * jsvalue))
| VOther (type : jsstring).

Definition num (q : Q) : jsvalue := VNum (Fin q).
Definition str (s : string) : jsvalue := VStr (lit s).
Definition strs (l : list string) : jsvalue := VArr (map str l).

Fixpoint assoc {A} (k : jsstring) (props : list (jsstring * A)) : option A :=
  match props with
  | [] => None
  | (k', v) :: r => if bool_decide (k' = k) then Some v else assoc k r
  end.

(** [v[k]] on a value that is neither [null] nor [undefined]. *)
Definition prop (v : jsvalue) (k : jsstring) : jsvalue :=
  match v with
  | VObj props => default VUndefined (assoc k props)
  | _ => VUndefined
  end.

(** [k in v] for an object. *)
Definition has_prop (v : jsvalue) (k : jsstring) : bool :=
  match v with
  | VObj props => bool_decide (is_Some (assoc k props))
  | _ => false
  end.

Definition is_zero (n : jsnum) : bool :=
  match n with
  | Fin q => Qeq_bool q 0
  | _ => false
  end.

Definition is_undefined (v : jsvalue) : bool :=
  match v with VUndefined => true | _ => false end.

(** [v === s] for a string [s]. *)
Definition is_string (s : jsstring) (v : jsvalue) : bool :=
  match v with VStr x => bool_decide (x = s) | _ => false end.

(** Truthiness, as [if (v)] and [!v] test it. *)
Definition truthy (v : jsvalue) : bool :=
  match v with
  | VUndefined | VNull => false
  | VBool b => b
  | VNum NaN => false
  | VNum n => negb (is_zero n)
  | VStr s => negb (bool_decide (s = []))
  | VArr _ | VObj _ | VOther _ => true
  end.

(** Truthiness of an optional string field. *)
Definition truthy_str (o : option jsstring) : bool :=
  match o with
  | Some (_ :: _) => true
  | _ => false
  end.

(** [n < b] and [n > b] against an integer bound. *)
Definition num_lt (n : jsnum) (b : Z) : bool :=
  match n with
  | NaN => false
  | Infinity neg => neg
  | Fin q => negb (Qle_bool (inject_Z b) q)
  end.

Definition num_gt (n : jsnum) (b : Z) : bool :=
  match n with
  | NaN => false
  | Infinity neg => negb neg
  | Fin q => negb (Qle_bool q (inject_Z b))
  end.

(** *** How a call ends *)

(** A thrown value: an [Error] instance with its name and message, or
    some other value. *)
Inductive thrown :=
| Error (name : jsstring) (msg : jsstring)
| NonError (v : jsvalue).

Inductive completion (A : Type) :=
| Return (a : A)
| Throw (e : thrown).
Arguments Return {A} a.
Arguments Throw {A} e.

(* ================================================================== *)
(** ** The schema language of the contract ([zod]) *)
(* ================================================================== *)

(** [typeof v === "function"] *)
Definition is_function (v : jsvalue) : bool :=
  match v with VOther t => bool_decide (t = lit "function") | _ => false end.

(** An object that zod takes for a promise: its [then] and its [catch]
    are functions. *)
Definition is_thenable (v : jsvalue) : bool :=
  match v with
  | VObj _ => is_function (prop v (lit "then")) && is_function (prop v (lit "catch"))
  | _ => false
  end.

(** The type name zod reports for a value ([getParsedType]). *)
Definition getParsedType (v : jsvalue) : jsstring :=
  match v with
  | VUndefined => lit "undefined"
  | VNull => lit "null"
  | VBool _ => lit "boolean"
  | VNum NaN => lit "nan"
  | VNum _ => lit "number"
  | VStr _ => lit "string"
  | VArr _ => lit "array"
  | VObj _ => if is_thenable v then lit "promise" else lit "object"
  | VOther t => t
  end.

Inductive pathseg :=
| Key (k : jsstring)
| Index (i : nat).

(** An issue, as far as the program looks at it: its path and message,
    and the [received] value of an [invalid_literal] issue, which is the
    input itself at that path.  (The other fields of an issue, and
    [received] on the other issue codes, are strings, numbers and lists
    of them.) *)
Record ZodIssue := {
  path : list pathseg;
  message : jsstring;
  received : option jsvalue
}.

Inductive check :=
| Min (bound : Z) (msg : option jsstring)
| Max (bound : Z) (msg : option jsstring).

(** The schema constructors the contract uses.  An optional message is the
    one the contract passes ([.min(1, msg)], [{errorMap}]); [None] leaves
    zod's default message in place. *)
Inductive schema :=
| ZString (min1 : option jsstring)
| ZNumber (checks : list check)
| ZEnum (options : list jsstring) (errorMap : option jsstring)
| ZLiteral (expected : jsstring) (errorMap : option jsstring)
| ZArray (element : schema) (min1 : option jsstring)
| ZObject (shape : list (jsstring * schema))
| ZOptional (inner : schema).

(** Default message of an [invalid_type] issue. *)
Definition invalid_type_message (expected : jsstring) (v : jsvalue) : jsstring :=
  match v with
  | VUndefined => lit "Required"
  | _ => lit "Expected " ++ expected ++ lit ", received " ++ getParsedType v
  end.

Definition joinValues (options : list jsstring) : jsstring :=
  join (lit " | ") (map (fun o => lit "'" ++ o ++ lit "'") options).

Definition check_issue (p : list pathseg) (n : jsnum) (c : check) : list ZodIssue :=
  match c with
  | Min b msg =>
      if num_lt n b then
        [ {| path := p;
             message := default (lit "Number must be greater than or equal to "
                                 ++ Z_to_string b) msg;
             received := None |} ]
      else []
  | Max b msg =>
      if num_gt n b then
        [ {| path := p;
             message := default (lit "Number must be less than or equal to "
                                 ++ Z_to_string b) msg;
             received := None |} ]
      else []
  end.

Definition issue (p : list pathseg) (m : jsstring) : list ZodIssue :=
  [ {| path := p; message := m; received := None |} ].

(** [run s p v] parses [v] against [s] at path [p]: the issues found, in
    the order zod records them, and the parsed output (objects keep only
    the keys of their shape). *)
Fixpoint run (s : schema) (p : list pathseg) (v : jsvalue) {struct s}
  : list ZodIssue * jsvalue :=
  match s with
  | ZString msg =>
      match v with
      | VStr x =>
          match x, msg with
          | [], Some m => (issue p m, v)
          | _, _ => ([], v)
          end
      | _ => (issue p (invalid_type_message (lit "string") v), v)
      end
  | ZNumber checks =>
      match v with
      | VNum NaN => (issue p (invalid_type_message (lit "number") v), v)
      | VNum n => (flat_map (check_issue p n) checks, v)
      | _ => (issue p (invalid_type_message (lit "number") v), v)
      end
  | ZEnum options em =>
      match v with
      | VStr x =>
          if bool_decide (x ∈ options) then ([], v)
          else (issue p (default (lit "Invalid enum value. Expected "
                                  ++ joinValues options ++ lit ", received '"
                                  ++ x ++ lit "'") em), v)
      | _ => (issue p (default (invalid_type_message (joinValues options) v) em), v)
      end
  | ZLiteral expected em =>
      if is_string expected v then ([], v)
      else ([ {| path := p;
                 message := default (lit "Invalid literal value, expected "
                                     ++ stringify_string expected) em;
                 received := Some v |} ], v)
  | ZArray element min1 =>
      match v with
      | VArr items =>
          let small :=
            match items, min1 with
            | [], Some m => issue p m
            | _, _ => []
            end in
          let rs := imap (fun i x => run element (p ++ [Index i]) x) items in
          (small ++ flat_map fst rs, VArr (map snd rs))
      | _ => (issue p (invalid_type_message (lit "array") v), v)
      end
  | ZObject shape =>
      match v with
      | VObj props =>
          if is_thenable v then
            (issue p (invalid_type_message (lit "object") v), v)
          else
          let fields :=
            (fix fields (sh : list (jsstring * schema))
               : list ZodIssue * list (jsstring * jsvalue) :=
               match sh with
               | [] => ([], [])
               | (k, sk) :: rest =>
                   let r := run sk (p ++ [Key k]) (default VUndefined (assoc k props)) in
                   let rr := fields rest in
                   (fst r ++ fst rr,
                    if is_undefined (snd r) && negb (has_prop v k)
                    then snd rr else (k, snd r) :: snd rr)
               end) shape in
          (fst fields, VObj (snd fields))
      | _ => (issue p (invalid_type_message (lit "object") v), v)
      end
  | ZOptional inner =>
      match v with
      | VUndefined => ([], VUndefined)
      | _ => run inner p v
      end
  end.

(** What [schema.parse] throws: a [ZodError] carrying the issues, or
    something that is not a [ZodError]. *)
Inductive parse_throw :=
| ZodError (issues : list ZodIssue)
| NotZodError.

Inductive parse_result :=
| Parsed (output : jsvalue)
| ParseThrew (e : parse_throw).

(** [schema.parse(data)].  zod marks a parse invalid exactly when it has
    recorded an issue. *)
Definition parse (s : schema) (data : jsvalue) : parse_result :=
  match run s [] data with
  | ([], out) => Parsed out
  | (issues, _) => ParseThrew (ZodError issues)
  end.

(* ================================================================== *)
(** ** The dashboard contract ([contracts/dashboard.ts]) *)
(* ================================================================== *)

Definition degree_sign : N := 176%N.
Definition arrow_up : jsstring := [8593%N].
Definition arrow_down : jsstring := [8595%N].
Definition arrow_right : jsstring := [8594%N].
Definition degrees_C : jsstring := [degree_sign; 67%N].

Definition ConfidenceSchema : schema :=
  ZObject
    [ (lit "level",
       ZEnum [lit "High"; lit "Medium"; lit "Low"]
             (Some (lit "Confidence level must be High, Medium, or Low")));
      (lit "score", ZOptional (ZNumber [Min 0 None; Max 1 None]));
      (lit "reason", ZString (Some (lit "Confidence reason is required"))) ].

Definition CoordinatesSchema : schema :=
  ZObject
    [ (lit "lat",
       ZNumber [Min (-90) None;
                Max 90 (Some (lit "Latitude must be between -90 and 90"))]);
      (lit "lng",
       ZNumber [Min (-180) None;
                Max 180 (Some (lit "Longitude must be between -180 and 180"))]) ].

Definition RegionProfileSchema : schema :=
  ZObject
    [ (lit "climate_regime", ZString (Some (lit "Climate regime is required")));
      (lit "exposure_flags", ZArray (ZString None) None);
      (lit "urbanicity",
       ZOptional (ZEnum [lit "urban"; lit "suburban"; lit "rural"] None));
      (lit "elevation_band", ZOptional (ZString None));
      (lit "vegetation_class", ZOptional (ZString None)) ].

Definition LocationSchema : schema :=
  ZObject
    [ (lit "location_key", ZString (Some (lit "location_key is required")));
      (lit "normalized_address",
       ZString (Some (lit "normalized_address is required")));
      (lit "coordinates", ZOptional CoordinatesSchema);
      (lit "region_profile", RegionProfileSchema) ].

Definition BaselineSchema : schema :=
  ZObject
    [ (lit "warming_estimate",
       ZNumber
         [ Min 0 (Some (lit "Warming estimate must be non-negative"));
           Max 10 (Some (lit "Warming estimate must be realistic ("
                         ++ [8804%N] ++ lit "10" ++ degrees_C ++ lit ")")) ]);
      (lit "unit",
       ZLiteral degrees_C (Some (lit "Unit must be " ++ degrees_C)));
      (lit "period_comparison",
       ZString (Some (lit "Period comparison is required")));
      (lit "confidence", ConfidenceSchema) ].

Definition DriftSchema : schema :=
  ZObject
    [ (lit "direction",
       ZEnum [arrow_up; arrow_down; arrow_right]
             (Some (lit "Drift direction must be " ++ arrow_up ++ lit ", "
                    ++ arrow_down ++ lit ", or " ++ arrow_right)));
      (lit "magnitude",
       ZEnum [lit "Strong"; lit "Moderate"; lit "Weak"]
             (Some (lit "Drift magnitude must be Strong, Moderate, or Weak")));
      (lit "confidence", ZEnum [lit "High"; lit "Medium"; lit "Low"] None) ].

Definition RiskNodeSchema : schema :=
  ZObject
    [ (lit "id", ZString (Some (lit "Node ID is required")));
      (lit "label", ZString (Some (lit "Node label is required")));
      (lit "type",
       ZEnum [lit "Risk"; lit "Impact"; lit "Stress"; lit "Response";
              lit "Market"; lit "Behavior"; lit "Feedback"]
             (Some (lit "Node type must be valid enum value")));
      (lit "severity",
       ZNumber [ Min 0 (Some (lit "Severity must be >= 0"));
                 Max 1 (Some (lit "Severity must be <= 1")) ]);
      (lit "description", ZString (Some (lit "Node description is required")));
      (lit "drivers", ZArray (ZString None) None);
      (lit "drift", DriftSchema);
      (lit "uncertainty",
       ZString (Some (lit "Uncertainty description is required"))) ].

Definition SpilloverSchema : schema :=
  ZObject
    [ (lit "score",
       ZNumber [ Min 0 (Some (lit "Spillover score must be >= 0"));
                 Max 1 (Some (lit "Spillover score must be <= 1")) ]);
      (lit "linked_communities", ZArray (ZString None) None);
      (lit "pathway", ZString (Some (lit "Spillover pathway is required"))) ].

Definition RiskChainSchema : schema :=
  ZObject
    [ (lit "hazard", ZString (Some (lit "Hazard is required")));
      (lit "system", ZString (Some (lit "System is required")));
      (lit "nodes",
       ZArray RiskNodeSchema
              (Some (lit "Risk chain must have at least one node")));
      (lit "spillover", SpilloverSchema) ].

Definition DatasetVersionSchema : schema :=
  ZObject
    [ (lit "source_id", ZString (Some (lit "Source ID is required")));
      (lit "version", ZString (Some (lit "Version is required")));
      (lit "as_of", ZString (Some (lit "as_of timestamp is required"))) ].

Definition MetadataSchema : schema :=
  ZObject
    [ (lit "as_of_timestamp", ZString (Some (lit "as_of_timestamp is required")));
      (lit "dataset_versions",
       ZArray DatasetVersionSchema
              (Some (lit "At least one dataset version is required")));
      (lit "provenance",
       ZString (Some (lit "Provenance description is required"))) ].

Definition DashboardViewModelSchema : schema :=
  ZObject
    [ (lit "location", LocationSchema);
      (lit "baseline", BaselineSchema);
      (lit "risk_chain", RiskChainSchema);
      (lit "metadata", MetadataSchema) ].

Definition pathseg_string (seg : pathseg) : jsstring :=
  match seg with
  | Key k => k
  | Index i => nat_to_string i
  end.

(** [`${err.path.join('.')}: ${err.message}`] *)
Definition format_issue (err : ZodIssue) : jsstring :=
  join (lit ".") (map pathseg_string (path err)) ++ lit ": " ++ message err.

Record ValidationResult := {
  success : bool;
  data : option jsvalue;
  errors : option (list jsstring)
}.

(** What [validateDashboard] returns for each completion of
    [DashboardViewModelSchema.parse(data)]: the three [return] statements
    of its [try] and [catch]. *)
Definition validation_result (c : parse_result) : ValidationResult :=
  match c with
  | Parsed validated =>
      {| success := true; data := Some validated; errors := None |}
  | ParseThrew (ZodError issues) =>
      {| success := false; data := None;
         errors := Some (map format_issue issues) |}
  | ParseThrew NotZodError =>
      {| success := false; data := None;
         errors := Some [lit "Unknown validation error"] |}
  end.

(** Whether [JSON.stringify] throws on a value made of data: it does on a
    BigInt, at any depth (a function or a symbol is left out, a date is
    printed, a map or a set prints as an empty object). *)
Fixpoint has_bigint (v : jsvalue) : bool :=
  match v with
  | VOther t => bool_decide (t = lit "bigint")
  | VArr items =>
      (fix any (l : list jsvalue) : bool :=
         match l with
         | [] => false
         | x :: r => has_bigint x || any r
         end) items
  | VObj props =>
      (fix any (l : list (jsstring * jsvalue)) : bool :=
         match l with
         | [] => false
         | (_, x) :: r => has_bigint x || any r
         end) props
  | _ => false
  end.

(** A value made of [null], [undefined], booleans, numbers, strings,
    arrays and objects only, as a parsed JSON text is. *)
Fixpoint plain_data (v : jsvalue) : bool :=
  match v with
  | VOther _ => false
  | VArr items =>
      (fix all (l : list jsvalue) : bool :=
         match l with
         | [] => true
         | x :: r => plain_data x && all r
         end) items
  | VObj props =>
      (fix all (l : list (jsstring * jsvalue)) : bool :=
         match l with
         | [] => true
         | (_, x) :: r => plain_data x && all r
         end) props
  | _ => true
  end.

(** [console.error(JSON.stringify(error.errors, null, 2))], the line of
    the [catch] that runs when [NODE_ENV] is "development": what it throws,
    if it throws.  Of the fields of an issue only [received] can hold a
    value that does not serialise. *)
Definition development_logging (issues : list ZodIssue) : option thrown :=
  if existsb (fun i => from_option has_bigint false (received i)) issues
  then Some (Error (lit "TypeError") (lit "Do not know how to serialize a BigInt"))
  else None.

(** The [try]/[catch] of [validateDashboard], given whether the build is a
    development build and the completion of
    [DashboardViewModelSchema.parse(data)]. *)
Definition validateDashboard_catch (development : bool) (c : parse_result)
  : completion ValidationResult :=
  match c with
  | ParseThrew (ZodError issues) =>
      if development then
        match development_logging issues with
        | Some e => Throw e
        | None => Return (validation_result c)
        end
      else Return (validation_result c)
  | _ => Return (validation_result c)
  end.

(** An input of the validator, whose type is [unknown]: a value made of
    data, or an object that besides its data properties has own accessor
    properties, under the keys [getters], whose getter throws (something
    that is not a [ZodError]). *)
Record unknown := {
  data_of : jsvalue;
  getters : list jsstring
}.

Definition plain (v : jsvalue) : unknown := {| data_of := v; getters := [] |}.

(** Whether a property read of the parser throws.  On an object the
    parser first asks for its type, which reads [then] (and [catch], when
    [then] is a function); on what it does not take for a promise, an
    object schema then reads each key of its shape.  Unknown keys are
    stripped without being read. *)
Definition read_throws (s : schema) (u : unknown) : bool :=
  match data_of u with
  | VObj props =>
      bool_decide (lit "then" ∈ getters u)
      || (is_function (prop (data_of u) (lit "then"))
          && bool_decide (lit "catch" ∈ getters u))
      || (negb (is_thenable (data_of u))
          && match s with
             | ZObject shape =>
                 existsb (fun ks => bool_decide (fst ks ∈ getters u)) shape
             | _ => false
             end)
  | _ => false
  end.

(** [schema.parse(data)] on such an input: what a getter throws leaves
    [parse] as it is thrown. *)
Definition parse_unknown (s : schema) (u : unknown) : parse_result :=
  if read_throws s u then ParseThrew NotZodError else parse s (data_of u).

(** [validateDashboard(data)], in a development build or another. *)
Definition validateDashboard_call (development : bool) (u : unknown)
  : completion ValidationResult :=
  validateDashboard_catch development (parse_unknown DashboardViewModelSchema u).

(** [validateDashboard(data)] on a value made of data, where it returns:
    in a build that is not a development build, and in a development build
    whenever the logging prints, as it does for every value without a
    BigInt (every parsed JSON text, every dashboard the orchestrator
    assembles).  [validateDashboard_call_plain] states this. *)
Definition validateDashboard (data : jsvalue) : ValidationResult :=
  validation_result (parse DashboardViewModelSchema data).

(* ================================================================== *)
(** ** Cache layer *)
(* ================================================================== *)

Record CacheEntry := { value : jsvalue; expiresAt : Z }.

Module CacheLayer.

(** [get(key)] when [Date.now()] reads [now]: the result ([None] for
    [null]) and the map afterwards. *)
Definition get (now : Z) (key : jsstring) (cache : gmap jsstring CacheEntry)
  : option jsvalue * gmap jsstring CacheEntry :=
  match cache !! key with
  | None => (None, cache)
  | Some entry =>
      if now >? expiresAt entry then (None, delete key cache)
      else (Some (value entry), cache)
  end.

Definition default_ttl : Z := 3600000.

(** [set(key, value, ttl)] when [Date.now()] reads [now]; [ttl = None]
    is the call that omits the argument. *)
Definition set (now : Z) (key : jsstring) (v : jsvalue) (ttl : option Z)
  (cache : gmap jsstring CacheEntry) : gmap jsstring CacheEntry :=
  <[ key := {| value := v; expiresAt := now + default default_ttl ttl |} ]> cache.

Definition clear (cache : gmap jsstring CacheEntry) : gmap jsstring CacheEntry := ∅.

End CacheLayer.

(* ================================================================== *)
(** ** Mock domain services *)
(* ================================================================== *)

Definition obj (props : list (string * jsvalue)) : jsvalue :=
  VObj (map (fun p => (lit (fst p), snd p)) props).

Definition DatasetRegistry_toArray : jsvalue :=
  VArr
    [ obj [ ("source_id", str "IPCC-AR6");
            ("version", VStr (DatasetRegistry.version_of "baseline"));
            ("as_of", str "2023-11-10") ];
      obj [ ("source_id", str "NOAA");
            ("version", VStr (DatasetRegistry.version_of "reanalysis"));
            ("as_of", str "2024-01-15") ];
      obj [ ("source_id", str "ERA5");
            ("version", VStr (DatasetRegistry.version_of "observations"));
            ("as_of", str "2024-02-01") ] ].

Module LocationService.
Definition getRegion (location_key : jsstring) : jsvalue :=
  obj [ ("location_key", VStr location_key);
        ("normalized_address", str "Manhattan, New York, NY");
        ("region_profile",
         obj [ ("climate_regime", str "Humid Subtropical");
               ("exposure_flags", strs ["Coastal"; "Urban Heat Island"]) ]) ].
End LocationService.

(** String literals of [orchestrator.ts] outside ASCII, as the code units
    the source file holds: the unit is U+00C2 U+00B0 "C", the two drift
    directions are U+00E2 U+2020 U+2018 and U+00E2 U+2020 U+2019. *)
Definition orchestrator_unit : jsstring := [194; 176; 67]%N.
Definition orchestrator_direction_1 : jsstring := [226; 8224; 8216]%N.
Definition orchestrator_direction_2 : jsstring := [226; 8224; 8217]%N.

Module ClimateService.
Definition getBaseline (inputs : WizardState) : jsvalue :=
  let is_exact :=
    match precision_level inputs with Some Exact => true | _ => false end in
  let warming := if is_exact then (14 # 10)%Q else (12 # 10)%Q in
  obj [ ("warming_estimate", num warming);
        ("unit", VStr orchestrator_unit);
        ("period_comparison", str "vs 1850-1900 global baseline");
        ("confidence",
         obj [ ("level", if is_exact then str "High" else str "Medium");
               ("reason",
                if is_exact then str "Anchored to NOAA v5.1 modern reanalysis"
                else str "ERA5 reanalysis with bias correction") ]) ].
End ClimateService.

Module RiskService.

Definition node (id type : string) (label : jsstring) (severity : Q)
  (description : string) (drivers : list string)
  (direction : jsstring) (magnitude confidence uncertainty : string) : jsvalue :=
  obj [ ("id", str id);
        ("type", str type);
        ("label", VStr label);
        ("severity", num severity);
        ("description", str description);
        ("drivers", strs drivers);
        ("drift", obj [ ("direction", VStr direction);
                        ("magnitude", str magnitude);
                        ("confidence", str confidence) ]);
        ("uncertainty", str uncertainty) ].

(** [inputs.selected_hazards[0] || "Heat"] *)
Definition hazardLabel (inputs : WizardState) : jsstring :=
  match selected_hazards inputs with
  | (_ :: _) as h :: _ => h
  | _ => lit "Heat"
  end.

(** [inputs.selected_system || "Health"] *)
Definition systemLabel (inputs : WizardState) : jsstring :=
  match selected_system inputs with
  | Some ((_ :: _) as s) => s
  | _ => lit "Health"
  end.

Definition nodes (inputs : WizardState) : list jsvalue :=
  [ node "node_1" "Risk"
      (lit "Extreme " ++ hazardLabel inputs ++ lit " Event") (85 # 100)
      "Primary hazard intensification event"
      ["Climate Change"; "Natural Variability"]
      orchestrator_direction_1 "Strong" "High" "Low";
    node "node_2" "Impact" (lit "Infrastructure Stress") (70 # 100)
      "Physical degradation of critical assets"
      ["Extreme Heat"; "Aging Infrastructure"]
      orchestrator_direction_1 "Moderate" "Medium" "Medium";
    node "node_3" "Stress"
      (systemLabel inputs ++ lit " System Pressure") (72 # 100)
      "Operational capacity near limits"
      ["Infrastructure Stress"; "Demand Surge"]
      orchestrator_direction_2 "Weak" "Medium" "Medium";
    node "node_4" "Response" (lit "Emergency Response Activation") (58 # 100)
      "Deployment of contingency resources"
      ["System Pressure"]
      orchestrator_direction_2 "Weak" "Low" "High";
    node "node_5" "Market" (lit "Economic Ripple Effects") (45 # 100)
      "Localized financial disruption"
      ["System Pressure"; "Response Costs"]
      orchestrator_direction_1 "Moderate" "Medium" "High";
    node "node_6" "Behavior" (lit "Population Adaptation") (52 # 100)
      "Short-term behavioral shifts"
      ["Perceived Risk"]
      orchestrator_direction_2 "Weak" "Low" "Very High";
    node "node_7" "Feedback" (lit "Systemic Feedback Loop") (38 # 100)
      "Reinforcing cycle of vulnerability"
      ["Economic Ripple Effects"; "Population Adaptation"]
      orchestrator_direction_1 "Strong" "Low" "High" ].

Definition getChain (inputs : WizardState) : jsvalue :=
  obj [ ("hazard", VStr (hazardLabel inputs));
        ("system", VStr (systemLabel inputs));
        ("nodes", VArr (nodes inputs));
        ("spillover",
         obj [ ("score", num (62 # 100));
               ("linked_communities",
                strs ["Adjacent Metro Area"; "Upstream Region"; "Connected Zone"]);
               ("pathway", str "Commuting/Labor") ]) ].

End RiskService.

(* ================================================================== *)
(** ** The orchestrator *)
(* ================================================================== *)

Inductive LogLevel := verbose | info | error | warn.

(** One dispatch: a call of a mock service or the remote request. *)
Inductive Dispatch :=
| MockLocation (location_key : jsstring)
| MockBaseline (inputs : WizardState)
| MockRiskChain (inputs : WizardState)
| RemoteFetch (url : jsstring) (requestId : jsstring) (body : WizardState).

(** What a call does besides returning, in the order it does it: the calls
    of [apiLogger] (the message without its decorative prefix), of
    [generateCacheKey], of the cache, of the services and of the
    validator. *)
Inductive Event :=
| Logged (level : LogLevel) (msg : jsstring)
| KeyGenerated (key : jsstring)
| CacheGet (key : jsstring)
| CacheSet (key : jsstring)
| Dispatched (d : Dispatch)
| Validated (dashboard : jsvalue).

Record World := {
  cache : gmap jsstring CacheEntry;    (* the [cacheLayer] singleton *)
  trace : list Event
}.

Definition M (A : Type) : Type := World -> completion A * World.

Global Instance M_ret : MRet M := fun A a w => (Return a, w).
Global Instance M_bind : MBind M := fun A B f m w =>
  match m w with
  | (Return a, w') => f a w'
  | (Throw e, w') => (Throw e, w')
  end.

Definition throw {A} (e : thrown) : M A := fun w => (Throw e, w).

(** [try { body } catch (e) { handler e }] *)
Definition try_catch {A} (body : M A) (handler : thrown -> M A) : M A :=
  fun w =>
    match body w with
    | (Return a, w') => (Return a, w')
    | (Throw e, w') => handler e w'
    end.

Definition emit (e : Event) : M () :=
  fun w => (Return (), {| cache := cache w; trace := trace w ++ [e] |}).

Definition cache_get (now : Z) (key : jsstring) : M (option jsvalue) :=
  fun w =>
    let r := CacheLayer.get now key (cache w) in
    (Return (fst r), {| cache := snd r; trace := trace w ++ [CacheGet key] |}).

Definition cache_set (now : Z) (key : jsstring) (v : jsvalue) (ttl : option Z) : M () :=
  fun w =>
    (Return (), {| cache := CacheLayer.set now key v ttl (cache w);
                   trace := trace w ++ [CacheSet key] |}).

(** The answer of the remote service to one request.  What
    [response.json()] resolves to is a parsed JSON text: a value made of
    [null], booleans, numbers, strings, arrays and objects. *)
Record Response := {
  ok : bool;
  status : Z;
  statusText : jsstring;
  text : completion jsstring;     (* [await response.text()] *)
  json : completion jsvalue       (* [await response.json()] *)
}.

Inductive FetchOutcome :=
| Rejected (e : thrown)           (* network failure, or the deadline passed *)
| Responded (r : Response).

(** What a call reads from its surroundings: the resolved configuration
    (its log level only shapes console output, and is left out), the
    runtime's [AbortSignal.timeout], the remote service, and the clock at
    each of its three readings. *)
Record Host := {
  mode : jsstring;
  baseURL : jsstring;
  (* [parseInt(process.env.NEXT_PUBLIC_API_TIMEOUT || "30000", 10)]: an
     integer, or [None] for [NaN] *)
  timeout : option Z;
  (* the largest delay [AbortSignal.timeout] accepts (2^32 - 1 under
     Node, 2^53 - 1 in a browser), and what it throws for a delay it
     refuses (a [RangeError] under Node, a [TypeError] in a browser) *)
  delay_limit : Z;
  delay_error : option Z -> thrown;
  fetch : jsstring -> jsstring -> WizardState -> FetchOutcome;
  now_at_get : Z;                 (* [Date.now()] inside [cacheLayer.get] *)
  now_at_set : Z;                 (* [Date.now()] inside [cacheLayer.set] *)
  now_iso : jsstring              (* [new Date().toISOString()] *)
}.

Definition isMockMode (h : Host) : bool := bool_decide (mode h = lit "mock").

(** [AbortSignal.timeout(config.timeout)]: the signal is made for a delay
    that is an integer from 0 to the limit; [NaN], a negative delay and a
    delay above the limit are refused with an exception. *)
Definition AbortSignal_timeout (h : Host) : completion () :=
  match timeout h with
  | Some delay =>
      if (0 <=? delay) && (delay <=? delay_limit h) then Return ()
      else Throw (delay_error h (timeout h))
  | None => Throw (delay_error h (timeout h))
  end.

Definition getEndpointURL (h : Host) (path : jsstring) : jsstring :=
  let cleanPath :=
    match path with
    | 47%N :: _ => path
    | _ => lit "/" ++ path
    end in
  baseURL h ++ cleanPath.

Definition missing_inputs_message : jsstring :=
  lit "Missing required inputs: location_key, selected_hazards, selected_system".

(** The input guard:
    [!inputs.location_key || !inputs.selected_hazards.length || !inputs.selected_system] *)
Definition inputs_missing (inputs : WizardState) : bool :=
  negb (truthy_str (location_key inputs))
  || bool_decide (selected_hazards inputs = [])
  || negb (truthy_str (selected_system inputs)).

Definition mock_dashboard (h : Host) (inputs : WizardState) : jsvalue :=
  obj [ ("location", LocationService.getRegion (default [] (location_key inputs)));
        ("baseline", ClimateService.getBaseline inputs);
        ("risk_chain", RiskService.getChain inputs);
        ("metadata",
         obj [ ("as_of_timestamp", VStr (now_iso h));
               ("dataset_versions", DatasetRegistry_toArray);
               ("provenance",
                str "Combined regional anomaly modeling with local connectivity graph service.") ]) ].

Definition dispatch_mock (h : Host) (inputs : WizardState) : M jsvalue :=
  emit (Logged verbose (lit "Using MOCK services"));;
  emit (Dispatched (MockLocation (default [] (location_key inputs))));;
  emit (Dispatched (MockBaseline inputs));;
  emit (Dispatched (MockRiskChain inputs));;
  mret (mock_dashboard h inputs).

Definition dispatch_real (h : Host) (cacheKey : jsstring) (inputs : WizardState)
  : M jsvalue :=
  emit (Logged info (lit "Fetching dashboard from real API"));;
  try_catch
    (let url := getEndpointURL h (lit "/wizard/dashboard") in
     (* the arguments of [fetch] are evaluated first, the last of them
        [signal: AbortSignal.timeout(config.timeout)] *)
     match AbortSignal_timeout h with
     | Throw e => throw e
     | Return _ =>
         emit (Dispatched (RemoteFetch url cacheKey inputs));;
         match fetch h url cacheKey inputs with
         | Rejected e => throw e
         | Responded response =>
             if negb (ok response) then
               match text response with
               | Throw e => throw e
               | Return errorText =>
                   emit (Logged error (lit "API request failed"));;
                   throw (Error (lit "Error")
                            (lit "API request failed: "
                             ++ Z_to_string (status response)
                             ++ lit " " ++ statusText response))
               end
             else
               match json response with
               | Throw e => throw e
               | Return dashboard =>
                   (* [dashboard.metadata?.as_of_timestamp] *)
                   match dashboard with
                   | VNull | VUndefined =>
                       throw (Error (lit "TypeError")
                                (lit "Cannot read properties of "
                                 ++ getParsedType dashboard
                                 ++ lit " (reading 'metadata')"))
                   | _ =>
                       emit (Logged info (lit "Real API response received"));;
                       mret dashboard
                   end
               end
         end
     end)
    (fun e => emit (Logged error (lit "API call failed"));; throw e).

(** The mode-based branch of the orchestrator. *)
Definition dispatch (h : Host) (cacheKey : jsstring) (inputs : WizardState)
  : M jsvalue :=
  if isMockMode h then dispatch_mock h inputs
  else dispatch_real h cacheKey inputs.

(** [getUnifiedDashboard(inputs)].  The dashboard it validates is either
    assembled by the mock services or a parsed JSON text: plain data, on
    which [validateDashboard] returns the same result in every build
    ([validateDashboard_call_plain_data], [mock_dashboard_plain_data]). *)
Definition getUnifiedDashboard (h : Host) (inputs : WizardState) : M jsvalue :=
  if inputs_missing inputs then
    emit (Logged error missing_inputs_message);;
    throw (Error (lit "Error") missing_inputs_message)
  else
    let cacheKey := generateCacheKey inputs in
    emit (KeyGenerated cacheKey);;
    emit (Logged info (lit "Dashboard request"));;
    cached ← cache_get (now_at_get h) cacheKey;
    if from_option truthy false cached then
      emit (Logged info (lit "Cache hit:"));;
      mret (default VNull cached)
    else
      emit (Logged info (lit "Cache miss, fetching data:"));;
      dashboard ← dispatch h cacheKey inputs;
      emit (Validated dashboard);;
      let validation := validateDashboard dashboard in
      if negb (success validation) then
        emit (Logged error (lit "Dashboard validation failed"));;
        throw (Error (lit "Error")
                 (lit "Invalid dashboard structure: "
                  ++ join (lit ", ") (default [] (errors validation))))
      else
        emit (Logged info (lit "Dashboard validated successfully"));;
        cache_set (now_at_set h) cacheKey dashboard None;;
        mret dashboard.

(* ================================================================== *)
(** ** The HTTP route [POST /api/wizard/dashboard] *)
(* ================================================================== *)

(** The parsed request body: [null], [undefined], or a value whose
    properties, where present, have the types of the wire contract (any
    other property is never read). *)
Inductive Body :=
| BodyNull
| BodyUndefined
| BodyFields (location : option jsstring) (hazards : option (list jsstring))
             (system : option jsstring) (precision : option precision).

Record Request := { method : jsstring; body : Body }.

Record Reply := { statusCode : Z; replyBody : jsvalue }.

Definition error_reply (code : Z) (err : string) (msg : jsstring) : Reply :=
  {| statusCode := code;
     replyBody := obj [ ("error", str err); ("message", VStr msg) ] |}.

(** [error instanceof Error ? error.message : 'Unknown error occurred'] *)
Definition error_message (e : thrown) : jsstring :=
  match e with
  | Error _ m => m
  | NonError _ => lit "Unknown error occurred"
  end.

Definition handler_try (h : Host) (req : Request) : M Reply :=
  match body req with
  | BodyNull =>
      throw (Error (lit "TypeError")
               (lit "Cannot read properties of null (reading 'location_key')"))
  | BodyUndefined =>
      throw (Error (lit "TypeError")
               (lit "Cannot read properties of undefined (reading 'location_key')"))
  | BodyFields location hazards system precision =>
      if negb (truthy_str location)
         || bool_decide (length (default [] hazards) = 0%nat) then
        mret (error_reply 400 "invalid_request"
                (lit "Missing required fields: location_key, selected_hazards"))
      else
        let wizardState :=
          {| location_key := location;
             selected_hazards := default [] hazards;
             selected_system := system;
             precision_level := Some (default Approximate precision) |} in
        result ← getUnifiedDashboard h wizardState;
        mret {| statusCode := 200; replyBody := result |}
  end.

Definition handler (h : Host) (req : Request) (w : World) : Reply * World :=
  if negb (bool_decide (method req = lit "POST")) then
    (error_reply 405 "method_not_allowed" (lit "Only POST allowed"), w)
  else
    match handler_try h req w with
    | (Return reply, w') => (reply, w')
    | (Throw e, w') =>
        (error_reply 500 "internal_server_error" (error_message e), w')
    end.

(* ================================================================== *)
(** ** The wizard flow: invalidation of a displayed dashboard *)
(* ================================================================== *)

Module WizardFlow.

Record State := {
  currentStep : Z;
  wizardState : WizardState;
  dashboardData : option jsvalue;
  isLoadingDashboard : bool;
  dashboardError : option jsstring;
  dashboardRequestKey : option jsstring
}.

Definition generateDashboardKey (state : WizardState) : jsstring :=
  stringify_object
    [ (lit "location_key", stringify_string <$> location_key state);
      (lit "hazards", Some (stringify_strings (sort (selected_hazards state))));
      (lit "system", stringify_string <$> selected_system state);
      (lit "precision", Some (stringify_string (precision_or_default state))) ].

(** The body of the invalidation effect, run in state [st]. *)
Definition invalidate (st : State) : State :=
  match dashboardData st with
  | None => st
  | Some _ =>
      let currentKey := generateDashboardKey (wizardState st) in
      if truthy_str (dashboardRequestKey st)
         && negb (bool_decide (Some currentKey = dashboardRequestKey st)) then
        {| currentStep := if currentStep st >? 3 then 3 else currentStep st;
           wizardState := wizardState st;
           dashboardData := None;
           isLoadingDashboard := isLoadingDashboard st;
           dashboardError := None;
           dashboardRequestKey := None |}
      else st
  end.

(** The argument of one [setWizardState] call, relative to the state it
    replaces: the hazards are either the array object already held
    ([None]; the steps never mutate it in place) or a new array. *)
Record Edit := {
  edit_location_key : option jsstring;
  edit_hazards : option (list jsstring);
  edit_system : option jsstring;
  edit_precision : option precision
}.

Definition apply_edit (e : Edit) (s : WizardState) : WizardState :=
  {| location_key := edit_location_key e;
     selected_hazards := default (selected_hazards s) (edit_hazards e);
     selected_system := edit_system e;
     precision_level := edit_precision e |}.

(** Whether a dependency of the effect changed, compared as React
    compares them ([Object.is]): strings by content, the array by
    identity. *)
Definition deps_changed (e : Edit) (s : WizardState) : bool :=
  negb (bool_decide (edit_location_key e = location_key s))
  || bool_decide (is_Some (edit_hazards e))
  || negb (bool_decide (edit_system e = selected_system s))
  || negb (bool_decide (edit_precision e = precision_level s)).

(** [setWizardState(next)] followed by the render it causes: the effect
    runs when one of its dependencies changed. *)
Definition setWizardState (e : Edit) (st : State) : State :=
  let st' :=
    {| currentStep := currentStep st;
       wizardState := apply_edit e (wizardState st);
       dashboardData := dashboardData st;
       isLoadingDashboard := isLoadingDashboard st;
       dashboardError := dashboardError st;
       dashboardRequestKey := dashboardRequestKey st |} in
  if deps_changed e (wizardState st) then invalidate st' else st'.

End WizardFlow.

(* ================================================================== *)
(** ** Statements and scenarios of the specification *)
(* ================================================================== *)

(** The inputs of end-to-end scenario 1. *)
Definition scenario_inputs : WizardState :=
  {| location_key := Some (lit "geo_1");
     selected_hazards := [lit "Heat"; lit "Flood"];
     selected_system := Some (lit "Health");
     precision_level := Some Approximate |}.

Definition colon : N := 58%N.
Definition comma : N := 44%N.

(** No field that the key joins with [":"] or [","] contains that
    delimiter: the location key and the hazards hold no colon and the
    hazards hold no comma. *)
Definition delimiter_free (s : WizardState) : bool :=
  bool_decide (colon ∉ default [] (location_key s))
  && forallb (fun h => bool_decide (colon ∉ h) && bool_decide (comma ∉ h))
       (selected_hazards s).

(** The separation property as the specification words it: two valid
    inputs that differ in location key, hazard set, system or precision
    level have different keys. *)
Definition key_separates_fields : Prop :=
  forall s1 s2 : WizardState,
    inputs_missing s1 = false -> inputs_missing s2 = false ->
    (location_key s1 <> location_key s2
     \/ ~ (forall h, h ∈ selected_hazards s1 <-> h ∈ selected_hazards s2)
     \/ selected_system s1 <> selected_system s2
     \/ precision_level s1 <> precision_level s2) ->
    generateCacheKey s1 <> generateCacheKey s2.

(** Two valid inputs with different hazard sets: one hazard whose tag holds
    a comma, and the two hazards that tag joins. *)
Definition hazards_joined : WizardState :=
  with_hazards scenario_inputs [lit "Flood,Heat"].

Definition hazards_split : WizardState :=
  with_hazards scenario_inputs [lit "Flood"; lit "Heat"].

(** The events every call with valid inputs starts with. *)
Definition log_request (key : jsstring) : list Event :=
  [KeyGenerated key; Logged info (lit "Dashboard request"); CacheGet key].

(** The world in which the dispatch of a cache miss starts. *)
Definition miss_world (h : Host) (inputs : WizardState) (w : World) : World :=
  {| cache := snd (CacheLayer.get (now_at_get h) (generateCacheKey inputs) (cache w));
     trace := trace w ++ log_request (generateCacheKey inputs)
                ++ [Logged info (lit "Cache miss, fetching data:")] |}.

(** The message of the error thrown for a dashboard that fails validation. *)
Definition invalid_message (d : jsvalue) : jsstring :=
  lit "Invalid dashboard structure: "
  ++ join (lit ", ") (default [] (errors (validateDashboard d))).

(** A host in mock mode and a host in real mode whose remote service
    answers every request with [answer]. *)
Definition mock_host : Host :=
  {| mode := lit "mock";
     baseURL := lit "http://localhost:3000/api";
     timeout := Some 30000;
     delay_limit := 4294967295;
     delay_error := fun _ => Error (lit "RangeError") (lit "delay is out of range");
     fetch := fun _ _ _ => Rejected (Error (lit "TypeError") (lit "fetch failed"));
     now_at_get := 1000;
     now_at_set := 2000;
     now_iso := lit "2026-01-01T00:00:00.000Z" |}.

Definition real_host (answer : jsvalue) (t : Z) : Host :=
  {| mode := lit "real";
     baseURL := lit "https://api.staging.climatewizard.ai/v1";
     timeout := Some 30000;
     delay_limit := 4294967295;
     delay_error := fun _ => Error (lit "RangeError") (lit "delay is out of range");
     fetch := fun _ _ _ =>
       Responded {| ok := true; status := 200; statusText := lit "OK";
                    text := Return []; json := Return answer |};
     now_at_get := t;
     now_at_set := t + 150;
     now_iso := lit "2026-01-01T00:00:00.000Z" |}.

Definition empty_world : World := {| cache := ∅; trace := [] |}.

(** A payload that meets the contract, with the spillover score left open. *)
Definition sample_payload (score : Q) : jsvalue :=
  obj [ ("location", LocationService.getRegion (lit "geo_1"));
        ("baseline",
         obj [ ("warming_estimate", num (12 # 10));
               ("unit", VStr degrees_C);
               ("period_comparison", str "vs 1850-1900 global baseline");
               ("confidence",
                obj [ ("level", str "Medium");
                      ("reason", str "ERA5 reanalysis with bias correction") ]) ]);
        ("risk_chain",
         obj [ ("hazard", str "Heat");
               ("system", str "Health");
               ("nodes",
                VArr [ RiskService.node "node_1" "Risk" (lit "Extreme Heat Event")
                         (85 # 100) "Primary hazard intensification event"
                         ["Climate Change"; "Natural Variability"]
                         arrow_up "Strong" "High" "Low" ]);
               ("spillover",
                obj [ ("score", num score);
                      ("linked_communities", strs ["Adjacent Metro Area"]);
                      ("pathway", str "Commuting/Labor") ]) ]);
        ("metadata",
         obj [ ("as_of_timestamp", str "2026-01-01T00:00:00.000Z");
               ("dataset_versions", DatasetRegistry_toArray);
               ("provenance", str "Regional anomaly modeling.") ]) ].

(** The world after a first call in real mode, made at reading 1000 on an
    empty cache, that the remote service answers with a valid payload. *)
Definition world_after_first_call : World :=
  snd (getUnifiedDashboard (real_host (sample_payload (62 # 100)) 1000)
         scenario_inputs empty_world).

(** A wizard at step 5 that displays a dashboard computed from the scenario
    inputs, and two edits: one selects another system, the other installs
    a new hazards array with the same hazards in another order. *)
Definition displayed_state : WizardFlow.State :=
  {| WizardFlow.currentStep := 5;
     WizardFlow.wizardState := scenario_inputs;
     WizardFlow.dashboardData := Some (sample_payload (62 # 100));
     WizardFlow.isLoadingDashboard := false;
     WizardFlow.dashboardError := None;
     WizardFlow.dashboardRequestKey :=
       Some (WizardFlow.generateDashboardKey scenario_inputs) |}.

Definition select_energy : WizardFlow.Edit :=
  {| WizardFlow.edit_location_key := Some (lit "geo_1");
     WizardFlow.edit_hazards := None;
     WizardFlow.edit_system := Some (lit "Energy");
     WizardFlow.edit_precision := Some Approximate |}.

Definition reorder_hazards : WizardFlow.Edit :=
  {| WizardFlow.edit_location_key := Some (lit "geo_1");
     WizardFlow.edit_hazards := Some [lit "Flood"; lit "Heat"];
     WizardFlow.edit_system := Some (lit "Health");
     WizardFlow.edit_precision := Some Approximate |}.

(** The issue zod records for the unit of the mock baseline, which is
    not the degree sign and "C". *)
Definition unit_issue : ZodIssue :=
  {| path := [Key (lit "baseline"); Key (lit "unit")];
     message := lit "Unit must be " ++ degrees_C;
     received := Some (VStr orchestrator_unit) |}.

(** The issue for a drift direction outside the three arrows, at node [i]. *)
Definition direction_issue (i : nat) : ZodIssue :=
  {| path := [Key (lit "risk_chain"); Key (lit "nodes"); Index i;
              Key (lit "drift"); Key (lit "direction")];
     message := lit "Drift direction must be " ++ arrow_up ++ lit ", "
                ++ arrow_down ++ lit ", or " ++ arrow_right;
     received := None |}.


(** Whether a path leads to a field the schema names: keys of object
    shapes, and any index into an array. *)
Fixpoint schema_path (s : schema) (p : list pathseg) {struct s} : bool :=
  match p with
  | [] => true
  | seg :: rest =>
      match s with
      | ZObject shape =>
          match seg with
          | Key k =>
              (fix any (sh : list (jsstring * schema)) : bool :=
                 match sh with
                 | [] => false
                 | (k', sk) :: r =>
                     (bool_decide (k' = k) && schema_path sk rest) || any r
                 end) shape
          | Index _ => false
          end
      | ZArray element _ =>
          match seg with
          | Index _ => schema_path element rest
          | Key _ => false
          end
      | ZOptional inner => schema_path inner p
      | _ => false
      end
  end.




(** A payload whose unit is a BigInt. *)
Definition bigint_unit_payload : jsvalue :=
  obj [ ("baseline", obj [ ("unit", VOther (lit "bigint")) ]) ].

(* ================================================================== *)
(** ** Further parts of the program *)
(* ================================================================== *)

(** *** Histories of cache operations *)

Inductive CacheOp :=
| OpSet (now : Z) (key : jsstring) (v : jsvalue) (ttl : option Z)
| OpGet (now : Z) (key : jsstring)
| OpClear.

Definition apply_op (c : gmap jsstring CacheEntry) (op : CacheOp)
  : gmap jsstring CacheEntry :=
  match op with
  | OpSet now key v ttl => CacheLayer.set now key v ttl c
  | OpGet now key => snd (CacheLayer.get now key c)
  | OpClear => CacheLayer.clear c
  end.

(** The cache after a sequence of calls on a new [CacheLayer]. *)
Definition run_ops (ops : list CacheOp) : gmap jsstring CacheEntry :=
  fold_left apply_op ops ∅.

(** The entry the last [set] on [key] wrote, if no [clear] came after it. *)
Definition last_write (key : jsstring) (ops : list CacheOp) : option CacheEntry :=
  fold_left
    (fun acc op =>
       match op with
       | OpSet now k v ttl =>
           if bool_decide (k = key)
           then Some {| value := v;
                        expiresAt := now + default CacheLayer.default_ttl ttl |}
           else acc
       | OpGet _ _ => acc
       | OpClear => None
       end) ops None.

(** *** Reading a numeral back *)

Definition digit_value (c : N) : Z :=
  if (c <? 58)%N then Z.of_N c - 48 else Z.of_N c - 87.

Definition digits_value (radix : Z) (s : jsstring) : Z :=
  fold_left (fun acc c => acc * radix + digit_value c) s 0.

(** A digit or a lowercase letter. *)
Definition is_base36_char (c : N) : bool :=
  ((48 <=? c) && (c <=? 57) || (97 <=? c) && (c <=? 122))%N.

(** The polynomial hash with multiplier 31, without wrap-around. *)
Definition poly31 (str : jsstring) : Z :=
  fold_left (fun acc c => 31 * acc + Z.of_N c) str 0.

(** *** Notions for reasoning about the contract *)

(** The fields of an object schema, parsed with [runf] for the members. *)
Fixpoint fields_with
    (runf : schema -> list pathseg -> jsvalue -> list ZodIssue * jsvalue)
    (p : list pathseg) (props : list (jsstring * jsvalue))
    (sh : list (jsstring * schema)) : list ZodIssue * list (jsstring * jsvalue) :=
  match sh with
  | [] => ([], [])
  | (k, sk) :: rest =>
      let r := runf sk (p ++ [Key k]) (default VUndefined (assoc k props)) in
      let rr := fields_with runf p props rest in
      (fst r ++ fst rr,
       if is_undefined (snd r) && negb (has_prop (VObj props) k)
       then snd rr else (k, snd r) :: snd rr)
  end.

(** An object schema names each of its keys once, as an object literal
    does. *)
Fixpoint keys_distinct (s : schema) : bool :=
  match s with
  | ZObject shape =>
      bool_decide (NoDup (map fst shape))
      && (fix all (sh : list (jsstring * schema)) : bool :=
            match sh with
            | [] => true
            | (_, sk) :: rest => keys_distinct sk && all rest
            end) shape
  | ZArray element _ => keys_distinct element
  | ZOptional inner => keys_distinct inner
  | _ => true
  end.

(** A finite number between two integer bounds. *)
Definition in_range (lo hi : Z) (v : jsvalue) : Prop :=
  exists q, v = VNum (Fin q) /\ (inject_Z lo <= q)%Q /\ (q <= inject_Z hi)%Q.

(** Parsing the output of a parse without issues gives that output again,
    without issues. *)
Definition reparses (s : schema) : Prop :=
  forall p p' v out, run s p v = ([], out) -> run s p' out = ([], out).

(** *** What the cache may hold *)

(** Every entry holds a dashboard that passes the contract. *)
Definition cache_valid (c : gmap jsstring CacheEntry) : Prop :=
  forall k e, c !! k = Some e -> success (validateDashboard (value e)) = true.

(** The world after successive calls of the orchestrator, each with the
    configuration and the clock it runs under, on the one [cacheLayer]. *)
Definition call_sequence (calls : list (Host * WizardState)) (w : World) : World :=
  fold_left (fun w c => snd (getUnifiedDashboard (fst c) (snd c) w)) calls w.

(** The call finds no usable entry under the key of its inputs: none, an
    expired one, or one whose value is falsy. *)
Definition cache_miss (h : Host) (inputs : WizardState) (w : World) : Prop :=
  from_option truthy false
    (fst (CacheLayer.get (now_at_get h) (generateCacheKey inputs) (cache w))) = false.

(** What a call in real mode that misses the cache has done when it
    turns to the remote service, and when the request has been sent. *)
Definition request_begun (inputs : WizardState) (w : World) : list Event :=
  trace w ++ log_request (generateCacheKey inputs)
    ++ [Logged info (lit "Cache miss, fetching data:");
        Logged info (lit "Fetching dashboard from real API")].

Definition request_sent (h : Host) (inputs : WizardState) (w : World) : list Event :=
  request_begun inputs w
    ++ [Dispatched (RemoteFetch (baseURL h ++ lit "/wizard/dashboard")
                      (generateCacheKey inputs) inputs)].

(** A host in real mode whose timeout variable does not hold a number. *)
Definition misconfigured_host : Host :=
  {| mode := lit "real";
     baseURL := lit "https://api.staging.climatewizard.ai/v1";
     timeout := None;
     delay_limit := 4294967295;
     delay_error := fun _ => Error (lit "RangeError") (lit "delay is out of range");
     fetch := fun _ _ _ =>
       Responded {| ok := true; status := 200; statusText := lit "OK";
                    text := Return [];
                    json := Return (sample_payload (62 # 100)) |};
     now_at_get := 1000;
     now_at_set := 1150;
     now_iso := lit "2026-01-01T00:00:00.000Z" |}.

(** A host in real mode whose remote service answers 503. *)
Definition unavailable_host : Host :=
  {| mode := lit "real";
     baseURL := lit "https://api.staging.climatewizard.ai/v1";
     timeout := Some 30000;
     delay_limit := 4294967295;
     delay_error := fun _ => Error (lit "RangeError") (lit "delay is out of range");
     fetch := fun _ _ _ =>
       Responded {| ok := false; status := 503;
                    statusText := lit "Service Unavailable";
                    text := Return (lit "upstream unavailable");
                    json := Throw (Error (lit "SyntaxError")
                                     (lit "Unexpected end of JSON input")) |};
     now_at_get := 1000;
     now_at_set := 1150;
     now_iso := lit "2026-01-01T00:00:00.000Z" |}.

(** *** The API client of the browser *)

Module WizardAPIClient.

Record DashboardRequest := {
  location_key : jsstring;
  hazards : list jsstring;
  system : jsstring;
  precision_level : option precision
}.

(** [JSON.stringify(request)] as the route parses it: of the properties
    the route reads ([location_key], [selected_hazards], [selected_system],
    [precision_level]) the request has the first and, when set, the last. *)
Definition request_body (request : DashboardRequest) : Body :=
  BodyFields (Some (location_key request)) None None (precision_level request).

(** [getDashboard(request)], when the request reaches the route
    [POST /api/wizard/dashboard] of a server configured as [server]. *)
Definition getDashboard (server : Host) (request : DashboardRequest) : M jsvalue :=
  fun w =>
    let response :=
      handler server {| method := lit "POST"; body := request_body request |} w in
    let reply := fst response in
    if negb ((200 <=? statusCode reply) && (statusCode reply <=? 299)) then
      (Throw (NonError (replyBody reply)), snd response)
    else (Return (replyBody reply), snd response).

End WizardAPIClient.

(** *** The steps that edit the inputs *)

Module ClimateHazardStep.

(** [toggleHazard(hazardId)]: the state passed to [setWizardState]. *)
Definition toggleHazard (hazardId : jsstring) (s : WizardState) : WizardFlow.Edit :=
  let isSelected := bool_decide (hazardId ∈ selected_hazards s) in
  let newHazards :=
    if isSelected
    then filter (fun h => h <> hazardId) (selected_hazards s)
    else selected_hazards s ++ [hazardId] in
  {| WizardFlow.edit_location_key := location_key s;
     WizardFlow.edit_hazards := Some newHazards;
     WizardFlow.edit_system := selected_system s;
     WizardFlow.edit_precision := precision_level s |}.

End ClimateHazardStep.

Module SystemConcernStep.

(** The click on a system card. *)
Definition select (id : jsstring) (s : WizardState) : WizardFlow.Edit :=
  {| WizardFlow.edit_location_key := location_key s;
     WizardFlow.edit_hazards := None;
     WizardFlow.edit_system := Some id;
     WizardFlow.edit_precision := precision_level s |}.

End SystemConcernStep.

(** *** The handlers of the wizard flow *)

Module WizardHandlers.

Import WizardFlow.

Definition STEPS_length : Z := 6.

Definition initial : State :=
  {| currentStep := 1;
     wizardState := {| location_key := None; selected_hazards := [];
                       selected_system := None; precision_level := None |};
     dashboardData := None;
     isLoadingDashboard := false;
     dashboardError := None;
     dashboardRequestKey := None |}.

Definition canProceed (st : State) : bool :=
  if currentStep st =? 1 then truthy_str (location_key (wizardState st))
  else if currentStep st =? 2 then
    negb (bool_decide (selected_hazards (wizardState st) = []))
  else if currentStep st =? 3 then truthy_str (selected_system (wizardState st))
  else if (currentStep st =? 4) || (currentStep st =? 5) || (currentStep st =? 6)
  then bool_decide (is_Some (dashboardData st))
  else true.

Definition set_step (n : Z) (st : State) : State :=
  {| currentStep := n;
     wizardState := wizardState st;
     dashboardData := dashboardData st;
     isLoadingDashboard := isLoadingDashboard st;
     dashboardError := dashboardError st;
     dashboardRequestKey := dashboardRequestKey st |}.

(** Where [handleNext] stands when it first yields: it has returned, or
    it awaits [getUnifiedDashboard(wizardState)], holding the key it
    computed from the inputs of the render it was made in. *)
Inductive NextBegun :=
| Navigated (st : State)
| Awaiting (currentKey : jsstring) (st : State).

(** [handleNext] up to its [await]. *)
Definition handleNext_begin (st : State) : NextBegun :=
  if (currentStep st =? 3) && canProceed st then
    let currentKey := generateDashboardKey (wizardState st) in
    if negb (bool_decide (is_Some (dashboardData st)))
       || negb (bool_decide (Some currentKey = dashboardRequestKey st)) then
      Awaiting currentKey
        {| currentStep := currentStep st;
           wizardState := wizardState st;
           dashboardData := dashboardData st;
           isLoadingDashboard := true;
           dashboardError := None;
           dashboardRequestKey := dashboardRequestKey st |}
    else Navigated (set_step 4 st)
  else if (currentStep st <? STEPS_length) && canProceed st then
    Navigated (set_step (currentStep st + 1) st)
  else Navigated st.

(** [handleNext] from the [await] on, when the call has completed with
    [c]: the setters of its [try], [catch] and [finally], applied to the
    state as it is by then. *)
Definition handleNext_settle (currentKey : jsstring) (c : completion jsvalue)
    (st : State) : State :=
  match c with
  | Return dashboard =>
      {| currentStep := 4;
         wizardState := wizardState st;
         dashboardData := Some dashboard;
         isLoadingDashboard := false;
         dashboardError := dashboardError st;
         dashboardRequestKey := Some currentKey |}
  | Throw e =>
      {| currentStep := currentStep st;
         wizardState := wizardState st;
         dashboardData := dashboardData st;
         isLoadingDashboard := false;
         dashboardError :=
           Some (match e with
                 | Error _ m => m
                 | NonError _ => lit "Failed to generate dashboard"
                 end);
         dashboardRequestKey := dashboardRequestKey st |}
  end.

(** [handleNext] when nothing else runs while it awaits: the state after
    it and what the orchestrator call, if any, did to the world. *)
Definition handleNext (h : Host) (st : State) (w : World) : State * World :=
  match handleNext_begin st with
  | Navigated st' => (st', w)
  | Awaiting currentKey st' =>
      let r := getUnifiedDashboard h (wizardState st) w in
      (handleNext_settle currentKey (fst r) st', snd r)
  end.

Definition handleBack (st : State) : State :=
  if currentStep st >? 1 then set_step (currentStep st - 1) st else st.

(** [handleRestart]; the effect that follows the reset of the inputs finds
    no dashboard and does nothing. *)
Definition handleRestart (st : State) : State :=
  {| currentStep := 1;
     wizardState := {| location_key := None; selected_hazards := [];
                       selected_system := None; precision_level := None |};
     dashboardData := None;
     isLoadingDashboard := isLoadingDashboard st;
     dashboardError := None;
     dashboardRequestKey := dashboardRequestKey st |}.

(** The wizard between two events: its state, the world, and the call
    [handleNext] awaits, if any, with the key [handleNext] holds and the
    completion the call will have. *)
Record Flow := {
  flow_state : State;
  flow_world : World;
  in_flight : option (jsstring * completion jsvalue)
}.

(** What can happen: a call of [setWizardState] (by a step, or by the
    continuation of a handler that started earlier, such as
    [LocationStep.handleResolve], with the inputs of an earlier render),
    a press of Next (or Generate, or Retry), the completion of the awaited
    call, Back, Restart, or "Go to Step 3". *)
Inductive Action :=
| DoEdit (e : Edit)
| DoNext (h : Host)
| DoSettle
| DoBack
| DoRestart
| DoGoToStep3.

Definition with_state (f : Flow) (st : State) : Flow :=
  {| flow_state := st; flow_world := flow_world f; in_flight := in_flight f |}.

(** One event.  While a call is awaited nothing that starts [handleNext]
    is rendered, so a press of Next does nothing then; the call acts on
    the world before anything else does. *)
Definition act (f : Flow) (a : Action) : Flow :=
  match a with
  | DoEdit e => with_state f (setWizardState e (flow_state f))
  | DoNext h =>
      match in_flight f with
      | Some _ => f
      | None =>
          match handleNext_begin (flow_state f) with
          | Navigated st' => with_state f st'
          | Awaiting currentKey st' =>
              let r := getUnifiedDashboard h (wizardState (flow_state f))
                         (flow_world f) in
              {| flow_state := st'; flow_world := snd r;
                 in_flight := Some (currentKey, fst r) |}
          end
      end
  | DoSettle =>
      match in_flight f with
      | Some (currentKey, c) =>
          {| flow_state := handleNext_settle currentKey c (flow_state f);
             flow_world := flow_world f;
             in_flight := None |}
      | None => f
      end
  | DoBack => with_state f (handleBack (flow_state f))
  | DoRestart => with_state f (handleRestart (flow_state f))
  | DoGoToStep3 => with_state f (set_step 3 (flow_state f))
  end.

Definition start (w : World) : Flow :=
  {| flow_state := initial; flow_world := w; in_flight := None |}.

Definition run_flow (actions : list Action) (w : World) : Flow :=
  fold_left act actions (start w).

(** The wizard after a sequence of events, from its first render. *)
Definition run_actions (actions : list Action) (w : World) : State * World :=
  (flow_state (run_flow actions w), flow_world (run_flow actions w)).

(** No call of [setWizardState] and no restart lands while a call is
    awaited. *)
Fixpoint undisturbed_from (f : Flow) (actions : list Action) : bool :=
  match actions with
  | [] => true
  | a :: rest =>
      match in_flight f, a with
      | Some _, DoEdit _ | Some _, DoRestart => false
      | _, _ => undisturbed_from (act f a) rest
      end
  end.

Definition undisturbed (actions : list Action) (w : World) : bool :=
  undisturbed_from (start w) actions.

(** The step is one of the six, and past step 3 a dashboard is held. *)
Definition bounded (st : State) : Prop :=
  1 <= currentStep st <= 6
  /\ (3 < currentStep st -> is_Some (dashboardData st)).

(** Besides, a dashboard that is held was requested under the key of the
    current inputs. *)
Definition consistent (st : State) : Prop :=
  bounded st
  /\ (is_Some (dashboardData st) ->
      dashboardRequestKey st = Some (generateDashboardKey (wizardState st))).

(** The key an awaited call was made under is the key of the inputs. *)
Definition flight_current (f : Flow) : Prop :=
  forall key c, in_flight f = Some (key, c) ->
                key = generateDashboardKey (wizardState (flow_state f)).

(** The cache, the dashboard held and the dashboard awaited pass the
    contract. *)
Definition flow_valid (f : Flow) : Prop :=
  cache_valid (cache (flow_world f))
  /\ (forall d, dashboardData (flow_state f) = Some d ->
                success (validateDashboard d) = true)
  /\ (forall key d, in_flight f = Some (key, Return d) ->
                    success (validateDashboard d) = true).

(** The wizard is not past step 3, holds no dashboard, the cache is
    empty, and the awaited call, if any, will throw. *)
Definition flow_stuck (f : Flow) : Prop :=
  currentStep (flow_state f) <= 3 /\ dashboardData (flow_state f) = None
  /\ cache (flow_world f) = ∅
  /\ (forall key c, in_flight f = Some (key, c) -> exists e, c = Throw e).

Definition in_mock_mode (a : Action) : bool :=
  match a with
  | DoNext h => isMockMode h
  | _ => true
  end.

(** A user who enters a location, a hazard and a system, pressing Next
    after each, under configuration [h]; the call completes before
    anything else happens. *)
Definition first_run (h : Host) : list Action :=
  [ DoEdit {| edit_location_key := Some (lit "geo_1"); edit_hazards := None;
              edit_system := None; edit_precision := None |};
    DoNext h;
    DoEdit {| edit_location_key := Some (lit "geo_1");
              edit_hazards := Some [lit "Heat"];
              edit_system := None; edit_precision := None |};
    DoNext h;
    DoEdit {| edit_location_key := Some (lit "geo_1"); edit_hazards := None;
              edit_system := Some (lit "Health"); edit_precision := None |};
    DoNext h;
    DoSettle ].

(** The same user, but a location resolved at step 1 arrives, with the
    inputs of that render, while the call is awaited. *)
Definition late_location (h : Host) : list Action :=
  [ DoEdit {| edit_location_key := Some (lit "geo_1"); edit_hazards := None;
              edit_system := None; edit_precision := None |};
    DoNext h;
    DoEdit {| edit_location_key := Some (lit "geo_1");
              edit_hazards := Some [lit "Heat"];
              edit_system := None; edit_precision := None |};
    DoNext h;
    DoEdit {| edit_location_key := Some (lit "geo_1"); edit_hazards := None;
              edit_system := Some (lit "Health"); edit_precision := None |};
    DoNext h;
    DoEdit {| edit_location_key := Some (lit "geo_2"); edit_hazards := Some [];
              edit_system := None; edit_precision := None |};
    DoSettle ].

End WizardHandlers.

(* ================================================================== *)
(** * Properties *)
(* ================================================================== *)

(** ** The order behind [sort] *)

Section StringOrder.

Lemma str_ltb_asym x y : str_ltb x y = true -> str_ltb y x = false.
Proof.
  revert y. induction x as [|a x IH]; intros [|b y]; simpl; try done.
  destruct (N.ltb_spec a b), (N.ltb_spec b a); try done; try lia.
  apply IH.
Qed.

Lemma str_ltb_connected x y :
  str_ltb x y = false -> str_ltb y x = false -> x = y.
Proof.
  revert y. induction x as [|a x IH]; intros [|b y]; simpl; try done.
  destruct (N.ltb_spec a b), (N.ltb_spec b a); try done.
  intros Hxy Hyx. assert (a = b) as -> by lia. f_equal. by apply IH.
Qed.

Lemma str_ltb_trans x y z :
  str_ltb x y = true -> str_ltb y z = true -> str_ltb x z = true.
Proof.
  revert y z. induction x as [|a x IH]; intros [|b y] [|c z]; simpl; try done.
  destruct (N.ltb_spec a b), (N.ltb_spec b a), (N.ltb_spec b c),
    (N.ltb_spec c b), (N.ltb_spec a c), (N.ltb_spec c a);
    try done; try lia.
  apply IH.
Qed.

Lemma sort_le_iff x y : sort_le x y <-> str_ltb y x = false.
Proof.
  unfold sort_le, sortCompare.
  destruct (str_ltb x y) eqn:Hxy.
  - split; [intros _; by apply str_ltb_asym | lia].
  - destruct (str_ltb y x); split; try done; lia.
Qed.

Global Instance sort_le_total : Total sort_le.
Proof.
  intros x y. rewrite !sort_le_iff.
  destruct (str_ltb y x) eqn:Hyx; [right; by apply str_ltb_asym | by left].
Qed.

Global Instance sort_le_antisymm : AntiSymm (=) sort_le.
Proof. intros x y. rewrite !sort_le_iff. intros. by apply str_ltb_connected. Qed.

Global Instance sort_le_trans : Transitive sort_le.
Proof.
  intros x y z. rewrite !sort_le_iff. intros Hyx Hzy.
  destruct (str_ltb z x) eqn:Hzx; [|done].
  destruct (str_ltb x y) eqn:Hxy.
  - by rewrite (str_ltb_trans z x y) in Hzy.
  - assert (x = y) as -> by by apply str_ltb_connected.
    by rewrite Hzx in Hzy.
Qed.

(** The sorted array depends on the elements only, not on their order. *)
Lemma sort_permutation l1 l2 : l1 ≡ₚ l2 -> sort l1 = sort l2.
Proof.
  intros Hp. unfold sort.
  apply (Sorted_unique sort_le); try apply Sorted_merge_sort; try apply _.
  by rewrite !merge_sort_Permutation.
Qed.

End StringOrder.

(** C1.  For every wizard state with its location key set, at least one
    hazard and its system set, and every reordering of its hazard list,
    [generateCacheKey] returns the same key for the reordered state as for
    the original one. *)
Theorem generateCacheKey_hazard_order (s : WizardState) (hazards : list jsstring) :
  inputs_missing s = false ->
  hazards ≡ₚ selected_hazards s ->
  generateCacheKey (with_hazards s hazards) = generateCacheKey s.
Proof.
  intros _ Hp. unfold generateCacheKey, with_hazards; simpl.
  unfold precision_or_default; simpl.
  by rewrite (sort_permutation _ _ Hp).
Qed.

Lemma generateCacheKey_hazard_order_witness :
  generateCacheKey (with_hazards scenario_inputs [lit "Flood"; lit "Heat"])
  = generateCacheKey scenario_inputs.
Proof.
  apply generateCacheKey_hazard_order.
  - reflexivity.
  - apply perm_swap.
Defined.

(** ** Joining and splitting at a delimiter *)

Section Delimiters.

Variable d : N.

Lemma split_at_delimiter (x x' r r' : jsstring) :
  d ∉ x -> d ∉ x' -> x ++ d :: r = x' ++ d :: r' -> x = x' /\ r = r'.
Proof.
  revert x'. induction x as [|a x IH]; intros [|b x'] Hx Hx' Heq;
    simpl in Heq; simplify_eq.
  - done.
  - exfalso. apply Hx'. by left.
  - exfalso. apply Hx. by left.
  - destruct (IH x') as [-> ->]; try done.
    + intros ?. apply Hx. by right.
    + intros ?. apply Hx'. by right.
Qed.

Lemma join_cons2 (x y : jsstring) (r : list jsstring) :
  join [d] (x :: y :: r) = x ++ d :: join [d] (y :: r).
Proof. done. Qed.

Lemma join_free (c : N) (l : list jsstring) :
  c <> d -> Forall (fun h => c ∉ h) l -> c ∉ join [d] l.
Proof.
  intros Hcd. induction 1 as [|x l Hx Hl IH]; [by intros ?%elem_of_nil|].
  destruct l as [|y r]; [done|].
  rewrite join_cons2. intros [?|[?|?]%elem_of_cons]%elem_of_app; done.
Qed.

Lemma join_inj (l1 l2 : list jsstring) :
  Forall (fun h => d ∉ h) l1 -> Forall (fun h => d ∉ h) l2 ->
  l1 <> [] -> l2 <> [] ->
  join [d] l1 = join [d] l2 -> l1 = l2.
Proof.
  intros H1. revert l2.
  induction H1 as [|x l1 Hx Hl1 IH]; intros l2 H2 Hn1 Hn2 Heq; [done|].
  destruct H2 as [|y l2 Hy Hl2]; [done|].
  destruct l1 as [|x2 r1], l2 as [|y2 r2].
  - simpl in Heq. by subst.
  - rewrite join_cons2 in Heq. simpl in Heq. subst.
    exfalso. apply Hx. apply elem_of_app. right. by left.
  - rewrite join_cons2 in Heq. simpl in Heq. subst.
    exfalso. apply Hy. apply elem_of_app. right. by left.
  - rewrite !join_cons2 in Heq.
    apply split_at_delimiter in Heq as [-> Heq]; try done.
    f_equal. by apply IH.
Qed.

End Delimiters.

Lemma precision_or_default_colon_free s : colon ∉ precision_or_default s.
Proof.
  unfold precision_or_default.
  destruct (precision_level s) as [[]|]; apply (bool_decide_unpack _); by vm_compute.
Qed.

Lemma sort_nonempty l : l <> [] -> sort l <> [].
Proof.
  intros Hl Hs. apply Hl. apply Permutation_nil_r.
  rewrite <- Hs. unfold sort. by rewrite merge_sort_Permutation.
Qed.

Lemma delimiter_free_spec s :
  delimiter_free s = true ->
  (colon ∉ default [] (location_key s))
  /\ Forall (fun h => colon ∉ h) (selected_hazards s)
  /\ Forall (fun h => comma ∉ h) (selected_hazards s).
Proof.
  unfold delimiter_free. intros [Hl Hh]%andb_prop.
  apply bool_decide_eq_true in Hl. split; [done|].
  rewrite forallb_forall in Hh.
  split; apply Forall_forall; intros h Hin%list_elem_of_In;
    apply Hh in Hin as [H1 H2]%andb_prop;
    by apply bool_decide_eq_true in H1, H2.
Qed.

Lemma truthy_str_default_inj (o1 o2 : option jsstring) :
  truthy_str o1 = true -> truthy_str o2 = true ->
  default [] o1 = default [] o2 -> o1 = o2.
Proof. destruct o1 as [[|]|], o2 as [[|]|]; simpl; intros; by simplify_eq. Qed.

Lemma inputs_missing_false s :
  inputs_missing s = false ->
  truthy_str (location_key s) = true /\ selected_hazards s <> []
  /\ truthy_str (selected_system s) = true.
Proof.
  unfold inputs_missing. intros H.
  apply orb_false_elim in H as [H Hs]. apply orb_false_elim in H as [Hl Hh].
  apply negb_false_iff in Hl, Hs. by apply bool_decide_eq_false in Hh.
Qed.

(** C2 (as amended).  For valid inputs whose location key and hazards hold
    no colon and whose hazards hold no comma, equal keys force equal
    location keys, equal precision levels after defaulting, the same
    hazards up to order, and equal systems; so inputs that differ in any of
    these have different keys. *)
Theorem generateCacheKey_injective (s1 s2 : WizardState) :
  inputs_missing s1 = false -> inputs_missing s2 = false ->
  delimiter_free s1 = true -> delimiter_free s2 = true ->
  generateCacheKey s1 = generateCacheKey s2 ->
  location_key s1 = location_key s2
  /\ precision_or_default s1 = precision_or_default s2
  /\ selected_hazards s1 ≡ₚ selected_hazards s2
  /\ selected_system s1 = selected_system s2.
Proof.
  intros (Hl1 & Hh1 & Hs1)%inputs_missing_false
         (Hl2 & Hh2 & Hs2)%inputs_missing_false
         (Fl1 & Fc1 & Fm1)%delimiter_free_spec
         (Fl2 & Fc2 & Fm2)%delimiter_free_spec Hkey.
  unfold generateCacheKey, join_opt in Hkey.
  change (lit ":") with [colon] in Hkey. change (lit ",") with [comma] in Hkey.
  cbn [map default] in Hkey. rewrite !join_cons2 in Hkey.
  apply app_inv_head in Hkey. injection Hkey as Hkey.
  apply split_at_delimiter in Hkey as [Hloc Hkey]; [|done..].
  apply split_at_delimiter in Hkey as [Hprec Hkey];
    [|apply precision_or_default_colon_free..].
  assert (forall l, Forall (fun h => colon ∉ h) l ->
                    colon ∉ join [comma] (sort l)) as Hfree.
  { intros l Hl. apply join_free; [done|].
    unfold sort. by rewrite merge_sort_Permutation. }
  apply split_at_delimiter in Hkey as [Hhaz Hkey]; [|by apply Hfree..].
  apply app_inv_tail in Hkey.
  repeat split.
  - by apply truthy_str_default_inj.
  - done.
  - apply join_inj in Hhaz.
    + unfold sort in Hhaz.
      rewrite <- (merge_sort_Permutation sort_le (selected_hazards s1)), Hhaz.
      apply merge_sort_Permutation.
    + unfold sort. by rewrite merge_sort_Permutation.
    + unfold sort. by rewrite merge_sort_Permutation.
    + by apply sort_nonempty.
    + by apply sort_nonempty.
  - by apply truthy_str_default_inj.
Qed.

Lemma generateCacheKey_injective_witness :
  location_key scenario_inputs = location_key hazards_split
  /\ precision_or_default scenario_inputs = precision_or_default hazards_split
  /\ selected_hazards scenario_inputs ≡ₚ selected_hazards hazards_split
  /\ selected_system scenario_inputs = selected_system hazards_split.
Proof. apply generateCacheKey_injective; reflexivity. Defined.

(** C2, as the specification states it, fails: a hazard tag that holds the
    comma collides with the two hazards it joins. *)
Lemma key_separates_fields_counterexample : ~ key_separates_fields.
Proof.
  intros H.
  apply (H hazards_joined hazards_split); [reflexivity..| |reflexivity].
  right; left. intros Hsame.
  assert (lit "Heat" ∈ selected_hazards hazards_joined) as Hin.
  { apply Hsame. simpl. right. left. }
  simpl in Hin. apply list_elem_of_singleton in Hin. discriminate Hin.
Qed.

(** An absent precision level and ["approximate"] give the same key. *)
Lemma generateCacheKey_precision_default (s : WizardState) :
  precision_level s = None ->
  generateCacheKey s
  = generateCacheKey {| location_key := location_key s;
                        selected_hazards := selected_hazards s;
                        selected_system := selected_system s;
                        precision_level := Some Approximate |}.
Proof.
  intros Hp. unfold generateCacheKey, precision_or_default. simpl. by rewrite Hp.
Qed.

(** ** The cache layer *)

Lemma CacheLayer_get_live cache k e t :
  cache !! k = Some e -> t <= expiresAt e ->
  CacheLayer.get t k cache = (Some (value e), cache).
Proof.
  intros Hk Ht. unfold CacheLayer.get. rewrite Hk.
  destruct (Z.gtb_spec t (expiresAt e)); [lia|done].
Qed.

Lemma CacheLayer_get_expired cache k e t :
  cache !! k = Some e -> t > expiresAt e ->
  CacheLayer.get t k cache = (None, delete k cache).
Proof.
  intros Hk Ht. unfold CacheLayer.get. rewrite Hk.
  destruct (Z.gtb_spec t (expiresAt e)); [done|lia].
Qed.

Lemma CacheLayer_get_absent cache k t :
  cache !! k = None -> CacheLayer.get t k cache = (None, cache).
Proof. intros Hk. unfold CacheLayer.get. by rewrite Hk. Qed.

Lemma CacheLayer_set_lookup cache k v ttl now :
  CacheLayer.set now k v ttl cache !! k
  = Some {| value := v; expiresAt := now + default CacheLayer.default_ttl ttl |}.
Proof. unfold CacheLayer.set. by rewrite lookup_insert_eq. Qed.

(** C4 (as amended).  For every key, value and time-to-live that is not
    negative: a [get] at the clock reading of the [set], or at any reading
    up to the stored [expiresAt], returns the value and leaves the cache as
    it is; a [get] at a later reading returns absent and deletes the entry;
    a second [set] on the key replaces the entry, whose [expiresAt] is then
    the second reading plus the second time-to-live; and a [set] without a
    time-to-live uses 3,600,000 ms. *)
Theorem CacheLayer_set_get (cache : gmap jsstring CacheEntry)
    (k : jsstring) (v : jsvalue) (ttl now : Z) :
  0 <= ttl ->
  let c := CacheLayer.set now k v (Some ttl) cache in
  CacheLayer.get now k c = (Some v, c)
  /\ (forall t, t <= now + ttl -> CacheLayer.get t k c = (Some v, c))
  /\ (forall t, t > now + ttl ->
        CacheLayer.get t k c = (None, delete k c) /\ delete k c !! k = None)
  /\ (forall now' v' ttl',
        CacheLayer.set now' k v' (Some ttl') c
        = CacheLayer.set now' k v' (Some ttl') cache
        /\ CacheLayer.set now' k v' (Some ttl') c !! k
           = Some {| value := v'; expiresAt := now' + ttl' |})
  /\ CacheLayer.set now k v None cache
     = CacheLayer.set now k v (Some 3600000) cache.
Proof.
  intros Httl c.
  assert (c !! k = Some {| value := v; expiresAt := now + ttl |}) as Hc
    by apply CacheLayer_set_lookup.
  repeat split.
  - rewrite (CacheLayer_get_live _ _ _ _ Hc); simpl; [done|lia].
  - intros t Ht. by rewrite (CacheLayer_get_live _ _ _ _ Hc).
  - by rewrite (CacheLayer_get_expired _ _ _ _ Hc).
  - apply lookup_delete_eq.
  - unfold c, CacheLayer.set. apply insert_insert_eq.
  - apply CacheLayer_set_lookup.
Qed.

Lemma CacheLayer_set_get_witness :
  let c := CacheLayer.set 1000 (lit "k") (str "v") (Some 60000) ∅ in
  CacheLayer.get 1000 (lit "k") c = (Some (str "v"), c)
  /\ (forall t, t <= 1000 + 60000 ->
        CacheLayer.get t (lit "k") c = (Some (str "v"), c))
  /\ (forall t, t > 1000 + 60000 ->
        CacheLayer.get t (lit "k") c = (None, delete (lit "k") c)
        /\ delete (lit "k") c !! lit "k" = None)
  /\ (forall now' v' ttl',
        CacheLayer.set now' (lit "k") v' (Some ttl') c
        = CacheLayer.set now' (lit "k") v' (Some ttl') ∅
        /\ CacheLayer.set now' (lit "k") v' (Some ttl') c !! lit "k"
           = Some {| value := v'; expiresAt := now' + ttl' |})
  /\ CacheLayer.set 1000 (lit "k") (str "v") None ∅
     = CacheLayer.set 1000 (lit "k") (str "v") (Some 3600000) ∅.
Proof. apply (CacheLayer_set_get ∅ (lit "k") (str "v") 60000 1000). lia. Defined.

(** C4, as the specification states it for every time-to-live, fails for a
    negative one: the entry is already expired at the reading of the [set],
    and the [get] that follows returns absent and deletes it. *)
Lemma CacheLayer_set_get_counterexample :
  let c := CacheLayer.set 1000 (lit "k") (str "v") (Some (-1)) ∅ in
  fst (CacheLayer.get 1000 (lit "k") c) = None
  /\ fst (CacheLayer.get 1000 (lit "k") c) <> Some (str "v")
  /\ snd (CacheLayer.get 1000 (lit "k") c) !! lit "k" = None.
Proof.
  intros c.
  assert (CacheLayer.get 1000 (lit "k") c = (None, delete (lit "k") c)) as ->.
  { apply (CacheLayer_get_expired _ _ {| value := str "v"; expiresAt := 999 |});
      [apply CacheLayer_set_lookup | simpl; lia]. }
  simpl. split; [done|]. split; [done|]. apply lookup_delete_eq.
Qed.

(** ** The orchestrator *)

Ltac step_M :=
  cbv [mbind M_bind emit cache_get cache_set mret M_ret throw try_catch];
  cbn [cache trace fst snd].

Ltac norm_trace :=
  unfold log_request; rewrite <- ?app_assoc; cbn [app].

Lemma getUnifiedDashboard_missing h inputs w :
  inputs_missing inputs = true ->
  getUnifiedDashboard h inputs w
  = (Throw (Error (lit "Error") missing_inputs_message),
     {| cache := cache w;
        trace := trace w ++ [Logged error missing_inputs_message] |}).
Proof. intros H. unfold getUnifiedDashboard. by rewrite H. Qed.

Lemma getUnifiedDashboard_hit h inputs w e :
  inputs_missing inputs = false ->
  cache w !! generateCacheKey inputs = Some e ->
  now_at_get h <= expiresAt e ->
  truthy (value e) = true ->
  getUnifiedDashboard h inputs w
  = (Return (value e),
     {| cache := cache w;
        trace := trace w ++ log_request (generateCacheKey inputs)
                   ++ [Logged info (lit "Cache hit:")] |}).
Proof.
  intros Hin Hk Ht Hv. unfold getUnifiedDashboard. rewrite Hin. step_M.
  rewrite (CacheLayer_get_live _ _ _ _ Hk Ht). cbn [fst snd from_option].
  rewrite Hv. step_M. by norm_trace.
Qed.

Lemma dispatch_cache h key inputs w :
  cache (snd (dispatch h key inputs w)) = cache w.
Proof.
  unfold dispatch. destruct (isMockMode h); [done|].
  unfold dispatch_real. step_M.
  destruct (AbortSignal_timeout h) as [[]|e0]; [|done].
  destruct (fetch h _ key inputs) as [e|r]; [done|].
  destruct (ok r); cbn [negb]; [|by destruct (text r)].
  destruct (json r) as [[]|]; done.
Qed.

Lemma getUnifiedDashboard_miss h inputs w :
  inputs_missing inputs = false ->
  from_option truthy false
    (fst (CacheLayer.get (now_at_get h) (generateCacheKey inputs) (cache w))) = false ->
  getUnifiedDashboard h inputs w
  = match dispatch h (generateCacheKey inputs) inputs (miss_world h inputs w) with
    | (Throw e, w') => (Throw e, w')
    | (Return d, w') =>
        if success (validateDashboard d) then
          (Return d,
           {| cache := CacheLayer.set (now_at_set h) (generateCacheKey inputs)
                         d None (cache w');
              trace := trace w' ++ [Validated d;
                         Logged info (lit "Dashboard validated successfully");
                         CacheSet (generateCacheKey inputs)] |})
        else
          (Throw (Error (lit "Error") (invalid_message d)),
           {| cache := cache w';
              trace := trace w' ++ [Validated d;
                         Logged error (lit "Dashboard validation failed")] |})
    end.
Proof.
  intros Hin Hmiss. unfold getUnifiedDashboard. rewrite Hin. step_M.
  rewrite Hmiss. step_M. unfold miss_world. norm_trace.
  destruct (dispatch _ _ _ _) as [[d|e] w']; [|done].
  step_M. destruct (success (validateDashboard d)); cbn [negb]; step_M; by norm_trace.
Qed.

(** ** The validator *)

Lemma run_object_eq shape p props :
  is_thenable (VObj props) = false ->
  run (ZObject shape) p (VObj props)
  = (fst (fields_with run p props shape),
     VObj (snd (fields_with run p props shape))).
Proof.
  intros Hth. cbn [run]. rewrite Hth. simpl.
  f_equal; [|f_equal]; induction shape as [|[k sk] rest IH]; simpl;
    try done; by rewrite IH.
Qed.

(** An object that is taken for a promise is refused as a whole. *)
Lemma run_object_valid shape p props :
  fst (run (ZObject shape) p (VObj props)) = [] ->
  is_thenable (VObj props) = false.
Proof. cbn [run]. by destruct (is_thenable (VObj props)). Qed.

Lemma run_object_field shape p props k sk i :
  is_thenable (VObj props) = false ->
  (k, sk) ∈ shape ->
  i ∈ fst (run sk (p ++ [Key k]) (prop (VObj props) k)) ->
  i ∈ fst (run (ZObject shape) p (VObj props)).
Proof.
  intros Hth Hin Hi. rewrite run_object_eq by done. cbn [fst prop] in *.
  induction shape as [|[k' sk'] shape IH]; [by apply elem_of_nil in Hin|].
  cbn [fields_with fst]. apply elem_of_app.
  apply elem_of_cons in Hin as [Heq|Hin].
  - left. by simplify_eq.
  - right. by apply IH.
Qed.

Lemma plain_data_prop props k :
  plain_data (VObj props) = true ->
  plain_data (default VUndefined (assoc k props)) = true.
Proof.
  cbn [plain_data]. induction props as [|[k' x] props IH]; [done|].
  intros [Hx Hrest]%andb_prop. cbn [assoc].
  case_bool_decide; [done|by apply IH].
Qed.

Lemma plain_data_item items (j : nat) x :
  plain_data (VArr items) = true -> items !! j = Some x -> plain_data x = true.
Proof.
  cbn [plain_data]. revert j. induction items as [|y items IH]; [done|].
  intros j [Hy Hrest]%andb_prop. destruct j as [|j]; cbn.
  - by intros [= <-].
  - by apply IH.
Qed.

Lemma plain_data_not_thenable v : plain_data v = true -> is_thenable v = false.
Proof.
  destruct v as [| | | | | |props|]; try done. intros Hv.
  pose proof (plain_data_prop props (lit "then") Hv) as Hthen.
  unfold is_thenable. cbn [prop].
  by destruct (default VUndefined (assoc (lit "then") props)).
Qed.

Lemma plain_data_no_bigint v : plain_data v = true -> has_bigint v = false.
Proof.
  revert v. fix IH 1. intros [| | | | |items|props|t]; try done.
  - cbn [plain_data has_bigint].
    induction items as [|x items IHitems]; [done|].
    intros [Hx Hrest]%andb_prop. by rewrite (IH x Hx), IHitems.
  - cbn [plain_data has_bigint].
    induction props as [|[k x] props IHprops]; [done|].
    intros [Hx Hrest]%andb_prop. by rewrite (IH x Hx), IHprops.
Qed.

Lemma validateDashboard_issue d i :
  i ∈ fst (run DashboardViewModelSchema [] d) ->
  success (validateDashboard d) = false
  /\ exists errs, errors (validateDashboard d) = Some errs /\ format_issue i ∈ errs.
Proof.
  intros Hi. unfold validateDashboard, parse.
  destruct (run DashboardViewModelSchema [] d) as [[|j issues] out];
    [by apply elem_of_nil in Hi|].
  simpl. split; [done|]. eexists; split; [done|].
  by apply (list_elem_of_fmap_2 format_issue) in Hi.
Qed.

Lemma validateDashboard_object d :
  success (validateDashboard d) = true -> exists props, d = VObj props.
Proof.
  destruct d as [| | |n|s|items|props|t];
    [| | | | | |by eexists|]; intros H; vm_compute in H; discriminate H.
Qed.

(** Induction over schemas, through the shapes of object schemas. *)

Section SchemaInduction.

Variable P : schema -> Prop.
Hypothesis HString : forall m, P (ZString m).
Hypothesis HNumber : forall cs, P (ZNumber cs).
Hypothesis HEnum : forall o e, P (ZEnum o e).
Hypothesis HLiteral : forall x e, P (ZLiteral x e).
Hypothesis HArray : forall el m, P el -> P (ZArray el m).
Hypothesis HObject :
  forall shape, Forall (fun q => P (snd q)) shape -> P (ZObject shape).
Hypothesis HOptional : forall i, P i -> P (ZOptional i).

Lemma schema_nested_ind (s : schema) : P s.
Proof.
  revert s. fix IH 1. intros [m|cs|o e|x e|el m|shape|i].
  - apply HString.
  - apply HNumber.
  - apply HEnum.
  - apply HLiteral.
  - apply HArray, IH.
  - apply HObject.
    induction shape as [|[k sk] rest IHrest]; constructor; [apply IH | exact IHrest].
  - apply HOptional, IH.
Qed.

End SchemaInduction.

Lemma mock_dashboard_unit_issue h inputs :
  unit_issue ∈ fst (run DashboardViewModelSchema [] (mock_dashboard h inputs)).
Proof.
  apply (run_object_field _ _ _ (lit "baseline") BaselineSchema);
    [reflexivity | by right; left|].
  change (prop _ (lit "baseline")) with (ClimateService.getBaseline inputs).
  apply (run_object_field _ _ _ (lit "unit")
           (ZLiteral degrees_C (Some (lit "Unit must be " ++ degrees_C))));
    [reflexivity | by right; left|].
  change (prop _ (lit "unit")) with (VStr orchestrator_unit).
  vm_compute. left.
Qed.

(** Whatever the inputs, the dashboard the mock services assemble fails the
    contract. *)
Lemma mock_dashboard_invalid h inputs :
  success (validateDashboard (mock_dashboard h inputs)) = false.
Proof. apply (validateDashboard_issue _ unit_issue), mock_dashboard_unit_issue. Qed.

Lemma getUnifiedDashboard_mock_miss h inputs w :
  isMockMode h = true ->
  inputs_missing inputs = false ->
  from_option truthy false
    (fst (CacheLayer.get (now_at_get h) (generateCacheKey inputs) (cache w))) = false ->
  exists events,
    getUnifiedDashboard h inputs w
    = (Throw (Error (lit "Error") (invalid_message (mock_dashboard h inputs))),
       {| cache := cache (miss_world h inputs w);
          trace := trace w ++ events |}).
Proof.
  intros Hmock Hin Hmiss. rewrite getUnifiedDashboard_miss by done.
  unfold dispatch, dispatch_mock. rewrite Hmock. step_M.
  rewrite mock_dashboard_invalid. unfold miss_world. cbn [cache trace].
  rewrite <- !app_assoc. by eexists.
Qed.

(** C3.  End-to-end scenario 1, evaluated: in mock mode on an empty cache
    the call with the scenario inputs does not return a dashboard.  The
    unit the baseline service writes is the three code units U+00C2 U+00B0
    "C", not the degree sign and "C"; the validator reports it, and the
    drift direction of each of the seven nodes; the call throws, and the
    cache stays empty. *)
Theorem getUnifiedDashboard_scenario_1 :
  let d := mock_dashboard mock_host scenario_inputs in
  let r := getUnifiedDashboard mock_host scenario_inputs empty_world in
  prop (prop d (lit "baseline")) (lit "unit") = VStr orchestrator_unit
  /\ orchestrator_unit <> degrees_C
  /\ validateDashboard d
     = {| success := false; data := None;
          errors := Some (map format_issue
                            (unit_issue :: map direction_issue (seq 0 7))) |}
  /\ fst r = Throw (Error (lit "Error") (invalid_message d))
  /\ cache (snd r) = ∅.
Proof. vm_compute. by repeat split. Qed.

(** C5.  With valid inputs, when the cache holds an unexpired entry for
    the key, the call returns the value of that entry, the cache is
    unchanged, and besides its log records the call only generates the key
    and reads the cache: no dispatch, no validation, no cache write.  And
    when a first call has returned a dashboard, leaving the world [w], the
    cache of [w] holds that dashboard under the key (expiring one hour
    after the first call stored it, when that call found no entry), and
    every call made no later than the entry's [expiresAt] returns the same
    dashboard in that same way. *)
Theorem getUnifiedDashboard_cache_hit (h : Host) (inputs : WizardState) (w : World) :
  inputs_missing inputs = false ->
  let key := generateCacheKey inputs in
  let hit v :=
    (Return v,
     {| cache := cache w;
        trace := trace w ++ [KeyGenerated key;
                             Logged info (lit "Dashboard request");
                             CacheGet key;
                             Logged info (lit "Cache hit:")] |}) in
  (forall e, cache w !! key = Some e -> now_at_get h <= expiresAt e ->
             truthy (value e) = true ->
             getUnifiedDashboard h inputs w = hit (value e))
  /\ (forall h0 w0 d,
        getUnifiedDashboard h0 inputs w0 = (Return d, w) ->
        exists e, cache w !! key = Some e /\ value e = d
                  /\ (cache w0 !! key = None ->
                      expiresAt e = now_at_set h0 + 3600000)
                  /\ (now_at_get h <= expiresAt e ->
                      getUnifiedDashboard h inputs w = hit d)).
Proof.
  intros Hin key hit. split.
  - intros e Hk Ht Hv. by rewrite (getUnifiedDashboard_hit _ _ _ e).
  - intros h0 w0 d Hfirst.
    destruct (from_option truthy false
                (fst (CacheLayer.get (now_at_get h0) key (cache w0)))) eqn:Hlook.
    + (* the first call was itself a hit *)
      unfold CacheLayer.get in Hlook.
      destruct (cache w0 !! key) as [e|] eqn:Hk; [|done].
      destruct (Z.gtb_spec (now_at_get h0) (expiresAt e)) as [|Hlive]; [done|].
      simpl in Hlook.
      rewrite (getUnifiedDashboard_hit _ _ _ e) in Hfirst by done.
      injection Hfirst as <- <-. simpl.
      exists e. repeat split; [done..|]. intros Ht.
      by rewrite (getUnifiedDashboard_hit _ _ _ e).
    + (* the first call dispatched, validated and stored *)
      rewrite getUnifiedDashboard_miss in Hfirst by done.
      destruct (dispatch h0 _ inputs _) as [[d'|err] w'] eqn:Hd; [|done].
      destruct (success (validateDashboard d')) eqn:Hvalid; [|done].
      injection Hfirst as <- <-. cbn [cache].
      eexists. split; [apply CacheLayer_set_lookup|]. do 2 (split; [done|]).
      intros Ht. apply validateDashboard_object in Hvalid as [props ->].
      by rewrite (getUnifiedDashboard_hit _ _ _
                    {| value := VObj props;
                       expiresAt := now_at_set h0 + CacheLayer.default_ttl |})
        by (done || apply CacheLayer_set_lookup).
Qed.

Lemma getUnifiedDashboard_cache_hit_witness :
  inputs_missing scenario_inputs = false
  /\ getUnifiedDashboard (real_host VNull 3000000) scenario_inputs world_after_first_call
     = (Return (sample_payload (62 # 100)),
        {| cache := cache world_after_first_call;
           trace := trace world_after_first_call
                    ++ [KeyGenerated (generateCacheKey scenario_inputs);
                        Logged info (lit "Dashboard request");
                        CacheGet (generateCacheKey scenario_inputs);
                        Logged info (lit "Cache hit:")] |}).
Proof.
  split; [reflexivity|].
  destruct (getUnifiedDashboard_cache_hit (real_host VNull 3000000)
              scenario_inputs world_after_first_call eq_refl) as [_ Hsecond].
  destruct (Hsecond (real_host (sample_payload (62 # 100)) 1000) empty_world
              (sample_payload (62 # 100))) as (e & He & _ & Hfresh & Hhit).
  - vm_compute. reflexivity.
  - apply Hhit. rewrite Hfresh by reflexivity. simpl. lia.
Defined.

(** C6.  When the location key is unset, or no hazard is selected, or the
    system is unset, the call throws the input error at once: the cache is
    unchanged, and the only thing the call has done is to log that error,
    so no key was generated, the cache was neither read nor written, and
    nothing was dispatched. *)
Theorem getUnifiedDashboard_missing_inputs (h : Host) (inputs : WizardState) (w : World) :
  location_key inputs = None \/ selected_hazards inputs = []
  \/ selected_system inputs = None ->
  getUnifiedDashboard h inputs w
  = (Throw (Error (lit "Error")
              (lit "Missing required inputs: location_key, selected_hazards, selected_system")),
     {| cache := cache w;
        trace := trace w ++ [Logged error missing_inputs_message] |}).
Proof.
  intros H. apply getUnifiedDashboard_missing. unfold inputs_missing.
  destruct H as [-> | [-> | ->]]; simpl; rewrite ?orb_true_r; done.
Qed.

Lemma getUnifiedDashboard_missing_inputs_witness :
  getUnifiedDashboard mock_host (with_hazards scenario_inputs []) empty_world
  = (Throw (Error (lit "Error")
              (lit "Missing required inputs: location_key, selected_hazards, selected_system")),
     {| cache := ∅; trace := [Logged error missing_inputs_message] |}).
Proof.
  apply (getUnifiedDashboard_missing_inputs mock_host
           (with_hazards scenario_inputs []) empty_world).
  right; left; reflexivity.
Defined.

(** ** The validator, on every input *)


(** What every issue carries: a path under the path of the parse that
    leads to a field of the schema, and, as [received], a part of the
    input. *)
Lemma has_bigint_prop props k :
  has_bigint (VObj props) = false ->
  has_bigint (default VUndefined (assoc k props)) = false.
Proof.
  cbn [has_bigint]. induction props as [|[k' x] props IH]; [done|].
  intros [Hx Hrest]%orb_false_elim. cbn [assoc].
  case_bool_decide; [done|by apply IH].
Qed.

Lemma has_bigint_item items (j : nat) x :
  has_bigint (VArr items) = false -> items !! j = Some x -> has_bigint x = false.
Proof.
  cbn [has_bigint]. revert j. induction items as [|y items IH]; [done|].
  intros j [Hy Hrest]%orb_false_elim. destruct j as [|j]; cbn.
  - by intros [= <-].
  - by apply IH.
Qed.

Lemma schema_path_field shape k sk q :
  (k, sk) ∈ shape -> schema_path sk q = true ->
  schema_path (ZObject shape) (Key k :: q) = true.
Proof.
  intros Hin Hq. cbn [schema_path].
  induction shape as [|[k' sk'] shape IH]; [by apply elem_of_nil in Hin|].
  apply elem_of_cons in Hin as [[= <- <-]|Hin].
  - by rewrite bool_decide_eq_true_2, Hq.
  - rewrite IH by done. apply orb_true_r.
Qed.

Lemma fields_with_issue runf p props shape i :
  i ∈ fst (fields_with runf p props shape) ->
  exists k sk, (k, sk) ∈ shape
    /\ i ∈ fst (runf sk (p ++ [Key k]) (default VUndefined (assoc k props))).
Proof.
  induction shape as [|[k sk] shape IH]; cbn [fields_with fst].
  - by intros ?%elem_of_nil.
  - intros [Hi|Hi]%elem_of_app.
    + exists k, sk. split; [by left|done].
    + destruct (IH Hi) as (k' & sk' & Hin & Hi'). exists k', sk'.
      split; [by right|done].
Qed.

Lemma run_issue s :
  forall p v i,
    i ∈ fst (run s p v) ->
    (exists q, path i = p ++ q /\ schema_path s q = true)
    /\ (has_bigint v = false -> from_option has_bigint false (received i) = false).
Proof.
  induction s as [m|cs|o e|x e|el m IH|shape IH|inner IH] using schema_nested_ind;
    intros p v i Hi.
  - assert (i = {| path := p; message := message i; received := None |}) as ->.
    { destruct v as [| | | |[|c x]| | |]; destruct m; cbn in Hi;
        try (by apply elem_of_nil in Hi);
        by apply list_elem_of_singleton in Hi as ->. }
    split; [exists []; by rewrite app_nil_r|done].
  - assert (path i = p /\ received i = None) as [Hp Hr].
    { destruct v as [| | |[| |q]| | | |]; cbn in Hi;
        try (by apply list_elem_of_singleton in Hi as ->).
      all: apply list_elem_of_In, in_flat_map in Hi as (c & _ & Hi);
        destruct c; cbn in Hi; destruct (_ : bool); try done;
        by destruct Hi as [<-|[]]. }
    rewrite Hr. split; [exists []; by rewrite app_nil_r|done].
  - assert (path i = p /\ received i = None) as [Hp Hr].
    { destruct v; cbn in Hi; try case_bool_decide;
        try (by apply elem_of_nil in Hi);
        by apply list_elem_of_singleton in Hi as ->. }
    rewrite Hr. split; [exists []; by rewrite app_nil_r|done].
  - cbn [run] in Hi. destruct (is_string x v); [by apply elem_of_nil in Hi|].
    apply list_elem_of_singleton in Hi as ->. cbn [path received from_option].
    split; [exists []; by rewrite app_nil_r|done].
  - destruct v as [| | | | |items| |];
      try (cbn in Hi; apply list_elem_of_singleton in Hi as ->;
           split; [exists []; by rewrite app_nil_r|done]).
    cbn [run fst] in Hi. apply elem_of_app in Hi as [Hi|Hi].
    { assert (i = {| path := p; message := message i; received := None |}) as ->.
      { destruct items, m; try (by apply elem_of_nil in Hi).
        by apply list_elem_of_singleton in Hi as ->. }
      split; [exists []; by rewrite app_nil_r|done]. }
    apply list_elem_of_In, in_flat_map in Hi as (r & Hr & Hi).
    apply list_elem_of_In, list_elem_of_lookup in Hr as [j Hj].
    rewrite list_lookup_imap in Hj.
    destruct (items !! j) as [x|] eqn:Hx; [|done]. injection Hj as <-.
    apply list_elem_of_In in Hi.
    destruct (IH _ _ _ Hi) as [(q & Hq & Hs) Hb]. split.
    + exists (Index j :: q). split; [by rewrite Hq, <- app_assoc|done].
    + intros Hv. apply Hb. by apply (has_bigint_item items j).
  - destruct v as [| | | | | |props|];
      try (cbn in Hi; apply list_elem_of_singleton in Hi as ->;
           split; [exists []; by rewrite app_nil_r|done]).
    destruct (is_thenable (VObj props)) eqn:Hth.
    { cbn [run] in Hi. rewrite Hth in Hi.
      apply list_elem_of_singleton in Hi as ->.
      split; [exists []; by rewrite app_nil_r|done]. }
    rewrite run_object_eq in Hi by done. cbn [fst] in Hi.
    apply fields_with_issue in Hi as (k & sk & Hin & Hi).
    rewrite Forall_forall in IH.
    destruct (IH (k, sk) Hin _ _ _ Hi) as [(q & Hq & Hs) Hb]. split.
    + exists (Key k :: q). split; [by rewrite Hq, <- app_assoc|].
      by apply (schema_path_field _ _ sk).
    + intros Hv. apply Hb. by apply has_bigint_prop.
  - destruct v; try (by apply elem_of_nil in Hi);
      destruct (IH _ _ _ Hi) as [(q & Hq & Hs) Hb];
      (split; [exists q; split; [done|]; by destruct q|done]).
Qed.

Lemma read_throws_plain s d : read_throws s (plain d) = false.
Proof.
  unfold read_throws, plain. cbn [data_of getters].
  destruct d as [| | | | | |props|]; try done.
  rewrite !bool_decide_eq_false_2 by by intros ?%elem_of_nil.
  rewrite andb_false_r. cbn [orb].
  destruct s as [| | | | |shape|]; try apply andb_false_r.
  assert (existsb (fun ks : jsstring * schema => bool_decide (fst ks ∈ []))
            shape = false) as ->; [|apply andb_false_r].
  induction shape as [|ks shape IH]; [done|]. cbn [existsb].
  by rewrite bool_decide_eq_false_2 by by intros ?%elem_of_nil.
Qed.

Lemma development_logging_data s p v :
  has_bigint v = false -> development_logging (fst (run s p v)) = None.
Proof.
  intros Hv. unfold development_logging.
  assert (existsb (fun i => from_option has_bigint false (received i))
            (fst (run s p v)) = false) as ->; [|done].
  apply not_true_is_false. intros (i & Hi & Hr)%existsb_exists.
  apply list_elem_of_In in Hi. destruct (run_issue s p v i Hi) as [_ Hb].
  by rewrite Hb in Hr.
Qed.

(** On a value made of data the call returns [validateDashboard], unless
    the build is a development build and the value holds a BigInt. *)
Lemma validateDashboard_call_plain development d :
  development = false \/ has_bigint d = false ->
  validateDashboard_call development (plain d) = Return (validateDashboard d).
Proof.
  intros Hprint. unfold validateDashboard_call, parse_unknown, validateDashboard.
  rewrite read_throws_plain. cbn [plain data_of].
  unfold validateDashboard_catch, parse.
  pose proof (development_logging_data DashboardViewModelSchema [] d) as Hlog.
  destruct (run DashboardViewModelSchema [] d) as [[|i issues] out]; [done|].
  destruct development; [|done].
  destruct Hprint as [|Hd]; [done|]. cbn [fst] in Hlog. by rewrite Hlog.
Qed.


(** On plain data, such as a parsed JSON text or the dashboard of the mock
    services, the validator returns the same result in every build. *)
Lemma validateDashboard_call_plain_data development d :
  plain_data d = true ->
  validateDashboard_call development (plain d) = Return (validateDashboard d).
Proof.
  intros Hd. apply validateDashboard_call_plain. right.
  by apply plain_data_no_bigint.
Qed.

Lemma mock_dashboard_plain_data h inputs :
  plain_data (mock_dashboard h inputs) = true.
Proof. by destruct inputs as [location hazards system [[|]|]]. Qed.





(** In a development build the claim fails in another way, which the
    amended statement leaves out: on a payload whose unit is a BigInt the
    logging inside the [catch] throws, and with it the validator. *)
Example validateDashboard_development_bigint :
  validateDashboard_call true (plain bigint_unit_payload)
  = Throw (Error (lit "TypeError") (lit "Do not know how to serialize a BigInt"))
  /\ validateDashboard_call false (plain bigint_unit_payload)
     = Return (validateDashboard bigint_unit_payload)
  /\ success (validateDashboard bigint_unit_payload) = false.
Proof. vm_compute. by repeat split. Qed.

(** Scenario 3 on a payload that is valid but for its spillover score. *)
Example validateDashboard_spillover_example :
  success (validateDashboard (sample_payload (62 # 100))) = true
  /\ validateDashboard (sample_payload (12 # 10))
     = {| success := false; data := None;
          errors := Some [lit "risk_chain.spillover.score: Spillover score must be <= 1"] |}.
Proof. vm_compute. done. Qed.

(** ** The HTTP route *)

Lemma handler_not_post h req w :
  method req <> lit "POST" ->
  handler h req w
  = (error_reply 405 "method_not_allowed" (lit "Only POST allowed"), w).
Proof.
  intros Hm. unfold handler. by rewrite bool_decide_eq_false_2.
Qed.

Lemma handler_missing_location_or_hazards h w location hazards system precision :
  truthy_str location = false \/ default [] hazards = [] ->
  handler h {| method := lit "POST";
               body := BodyFields location hazards system precision |} w
  = (error_reply 400 "invalid_request"
       (lit "Missing required fields: location_key, selected_hazards"), w).
Proof.
  intros H. unfold handler, handler_try. cbn [method body negb bool_decide].
  rewrite bool_decide_eq_true_2 by done. cbn [negb].
  destruct H as [-> | ->]; simpl; by rewrite ?orb_true_r.
Qed.

Lemma handler_post h w location hazards system precision :
  truthy_str location = true -> default [] hazards <> [] ->
  handler h {| method := lit "POST";
               body := BodyFields location hazards system precision |} w
  = match getUnifiedDashboard h
            {| location_key := location; selected_hazards := default [] hazards;
               selected_system := system;
               precision_level := Some (default Approximate precision) |} w with
    | (Return result, w') => ({| statusCode := 200; replyBody := result |}, w')
    | (Throw e, w') =>
        (error_reply 500 "internal_server_error" (error_message e), w')
    end.
Proof.
  intros Hl Hh. unfold handler, handler_try. cbn [method body].
  rewrite bool_decide_eq_true_2 by done. cbn [negb]. rewrite Hl. cbn [negb orb].
  rewrite bool_decide_eq_false_2
    by (destruct (default [] hazards); [done | discriminate]).
  step_M. by destruct (getUnifiedDashboard _ _ _) as [[?|?] ?].
Qed.

(** C9, at a request that names a location and a hazard but no system: the
    route answers 500 with the orchestrator's input error as its message,
    not 400; the cache is untouched. *)
Theorem handler_missing_system (h : Host) (w : World) :
  handler h {| method := lit "POST";
               body := BodyFields (Some (lit "geo_1")) (Some [lit "Heat"])
                         None (Some Approximate) |} w
  = ({| statusCode := 500;
        replyBody :=
          obj [ ("error", str "internal_server_error");
                ("message",
                 str "Missing required inputs: location_key, selected_hazards, selected_system") ] |},
     {| cache := cache w;
        trace := trace w ++ [Logged error missing_inputs_message] |}).
Proof.
  rewrite handler_post by done.
  by rewrite getUnifiedDashboard_missing.
Qed.

(** ** The mock risk chain and the key *)

(** C10 (as amended).  For valid inputs the dashboard assembled in mock
    mode carries, as risk_chain.system, the selected system, and as
    risk_chain.hazard the first selected hazard in the order supplied when
    that tag is not the empty string, and "Heat" when it is; and there are
    two valid inputs, reorderings of one hazard list and so of one key,
    whose assembled dashboards differ in risk_chain.hazard. *)
Theorem mock_risk_chain_labels (h : Host) (inputs : WizardState) (w : World) :
  inputs_missing inputs = false ->
  let chain d := prop d (lit "risk_chain") in
  (exists d w', dispatch_mock h inputs w = (Return d, w')
     /\ Some (prop (chain d) (lit "system")) = VStr <$> selected_system inputs
     /\ (forall first rest, selected_hazards inputs = first :: rest ->
           prop (chain d) (lit "hazard")
           = VStr (if bool_decide (first = []) then lit "Heat" else first)))
  /\ (exists s1 s2 d1 d2 w1 w2,
        inputs_missing s1 = false /\ inputs_missing s2 = false
        /\ selected_hazards s1 ≡ₚ selected_hazards s2
        /\ generateCacheKey s1 = generateCacheKey s2
        /\ dispatch_mock h s1 w = (Return d1, w1)
        /\ dispatch_mock h s2 w = (Return d2, w2)
        /\ prop (chain d1) (lit "hazard") <> prop (chain d2) (lit "hazard")).
Proof.
  intros (Hl & Hh & Hs)%inputs_missing_false chain. split.
  - do 2 eexists. split; [reflexivity|]. split.
    + change (prop (chain _) (lit "system"))
        with (VStr (RiskService.systemLabel inputs)).
      unfold RiskService.systemLabel.
      by destruct (selected_system inputs) as [[|]|].
    + intros first rest Heq.
      change (prop (chain _) (lit "hazard"))
        with (VStr (RiskService.hazardLabel inputs)).
      unfold RiskService.hazardLabel. rewrite Heq. by destruct first.
  - exists scenario_inputs, hazards_split. do 4 eexists.
    split; [done|]. split; [done|]. split; [apply perm_swap|].
    split; [done|]. split; [reflexivity|]. split; [reflexivity|].
    vm_compute. discriminate.
Qed.

Lemma mock_risk_chain_labels_witness :
  exists d w', dispatch_mock mock_host scenario_inputs empty_world = (Return d, w')
    /\ prop (prop d (lit "risk_chain")) (lit "system") = str "Health"
    /\ prop (prop d (lit "risk_chain")) (lit "hazard") = str "Heat".
Proof.
  destruct (mock_risk_chain_labels mock_host scenario_inputs empty_world eq_refl)
    as [(d & w' & Hd & Hsys & Hhaz) _].
  exists d, w'. split; [exact Hd|]. split.
  - simpl in Hsys. by injection Hsys.
  - apply (Hhaz (lit "Heat") [lit "Flood"]). reflexivity.
Defined.

(** C10, as stated, fails where the first hazard tag is the empty string:
    the inputs pass the guard, and the risk chain names "Heat" instead. *)
Lemma mock_risk_chain_first_hazard_counterexample :
  let inputs := with_hazards scenario_inputs [[]; lit "Flood"] in
  inputs_missing inputs = false
  /\ head (selected_hazards inputs) = Some []
  /\ fst (dispatch_mock mock_host inputs empty_world)
     = Return (mock_dashboard mock_host inputs)
  /\ prop (prop (mock_dashboard mock_host inputs) (lit "risk_chain")) (lit "hazard")
     = str "Heat"
  /\ str "Heat" <> VStr [].
Proof. vm_compute. by repeat split. Qed.

(** ** Invalidation of a displayed dashboard *)

Section Drift.

Import WizardFlow.

Lemma generateDashboardKey_truthy s :
  truthy_str (Some (generateDashboardKey s)) = true.
Proof.
  unfold generateDashboardKey, stringify_object.
  by change (lit "{") with [123%N].
Qed.

(** An edit that changes no dependency of the effect leaves the key as
    it was. *)
Lemma deps_unchanged_same_key e s :
  deps_changed e s = false ->
  generateDashboardKey (apply_edit e s) = generateDashboardKey s.
Proof.
  unfold deps_changed. intros H.
  apply orb_false_elim in H as [H Hp]. apply orb_false_elim in H as [H Hs].
  apply orb_false_elim in H as [Hl Hh].
  apply negb_false_iff, bool_decide_eq_true in Hl, Hs, Hp.
  apply bool_decide_eq_false in Hh.
  destruct e as [l [hz|] sy pr]; simpl in *; [by destruct Hh|].
  destruct s; simpl in *. by subst.
Qed.

(** C8.  While a dashboard is displayed and the request key [k1] of some
    inputs is recorded, consider an edit of the wizard inputs and the key
    [k2] of the inputs after it.  If the edit changes an input field and
    [k2] differs from [k1], the dashboard and the recorded key are
    discarded, and a step past 3 becomes step 3 (an earlier step stays).
    If [k2] equals [k1], the dashboard, the recorded key and the step
    are what they were.  When [k1] is the key of the inputs before the
    edit, an edit with another key does change an input field. *)
Theorem setWizardState_invalidation (st : State) (e : Edit)
    (d : jsvalue) (recorded : WizardState) :
  dashboardData st = Some d ->
  dashboardRequestKey st = Some (generateDashboardKey recorded) ->
  let k1 := generateDashboardKey recorded in
  let st' := setWizardState e st in
  let k2 := generateDashboardKey (apply_edit e (wizardState st)) in
  (generateDashboardKey (wizardState st) = k1 -> k2 <> k1 ->
     deps_changed e (wizardState st) = true)
  /\ wizardState st' = apply_edit e (wizardState st)
  /\ (deps_changed e (wizardState st) = true -> k2 <> k1 ->
        dashboardData st' = None
        /\ dashboardRequestKey st' = None
        /\ currentStep st' = (if currentStep st >? 3 then 3 else currentStep st))
  /\ (k2 = k1 ->
        dashboardData st' = Some d
        /\ dashboardRequestKey st' = Some k1
        /\ currentStep st' = currentStep st).
Proof.
  intros Hd Hk k1 st' k2. split.
  { intros Hfresh Hne.
    destruct (deps_changed e (wizardState st)) eqn:Hdeps; [done|].
    destruct Hne. unfold k2. by rewrite deps_unchanged_same_key. }
  unfold st', setWizardState, invalidate.
  cbn [dashboardData dashboardRequestKey wizardState currentStep].
  rewrite Hd, Hk, generateDashboardKey_truthy. cbn [andb].
  fold k1 k2.
  destruct (deps_changed e (wizardState st)); cbn [wizardState].
  - case_bool_decide as Hsame; cbn [negb];
      cbn [dashboardData dashboardRequestKey wizardState currentStep].
    + split; [done|]. split; [|done]. intros _ Hne. congruence.
    + split; [done|]. split; [done|]. intros Heq. congruence.
  - cbn [dashboardData dashboardRequestKey wizardState currentStep].
    split; [done|]. split; [done|]. done.
Qed.

Lemma setWizardState_invalidation_witness :
  (dashboardData (setWizardState select_energy displayed_state) = None
   /\ dashboardRequestKey (setWizardState select_energy displayed_state) = None
   /\ currentStep (setWizardState select_energy displayed_state) = 3)
  /\ (dashboardData (setWizardState reorder_hazards displayed_state)
      = Some (sample_payload (62 # 100))
      /\ currentStep (setWizardState reorder_hazards displayed_state) = 5).
Proof.
  split.
  - destruct (setWizardState_invalidation displayed_state select_energy
                (sample_payload (62 # 100)) scenario_inputs eq_refl eq_refl)
      as (_ & _ & Hstale & _).
    apply Hstale; [reflexivity | vm_compute; discriminate].
  - destruct (setWizardState_invalidation displayed_state reorder_hazards
                (sample_payload (62 # 100)) scenario_inputs eq_refl eq_refl)
      as (_ & _ & _ & Hkept).
    destruct Hkept as (Hdata & _ & Hstep); [vm_compute; reflexivity|].
    split; [exact Hdata | exact Hstep].
Defined.

End Drift.

(* ================================================================== *)
(** * Further properties *)
(* ================================================================== *)

(** ** Cache layer: other keys, and histories *)

Lemma CacheLayer_get_snd_lookup c t k k' e :
  snd (CacheLayer.get t k c) !! k' = Some e -> c !! k' = Some e.
Proof.
  unfold CacheLayer.get. destruct (c !! k) as [e0|] eqn:Hk; [|done].
  destruct (t >? expiresAt e0); [|done]. simpl.
  intros H. destruct (decide (k = k')) as [->|Hne].
  - by rewrite lookup_delete_eq in H.
  - by rewrite lookup_delete_ne in H.
Qed.

Lemma CacheLayer_get_snd_other c t k k' :
  k <> k' -> snd (CacheLayer.get t k c) !! k' = c !! k'.
Proof.
  intros Hne. unfold CacheLayer.get. destruct (c !! k) as [e0|]; [|done].
  destruct (t >? expiresAt e0); [|done]. simpl. by rewrite lookup_delete_ne.
Qed.

Lemma CacheLayer_get_Some c t k v :
  fst (CacheLayer.get t k c) = Some v ->
  exists e, c !! k = Some e /\ value e = v /\ t <= expiresAt e
            /\ snd (CacheLayer.get t k c) = c.
Proof.
  unfold CacheLayer.get. destruct (c !! k) as [e|]; [|done].
  destruct (Z.gtb_spec t (expiresAt e)); [done|]. simpl. intros [= <-].
  exists e. repeat split; try done; lia.
Qed.

Lemma CacheLayer_get_fst_ext c c' t k :
  c !! k = c' !! k ->
  fst (CacheLayer.get t k c) = fst (CacheLayer.get t k c').
Proof.
  intros H. unfold CacheLayer.get. rewrite H.
  by destruct (c' !! k) as [e|]; [destruct (t >? expiresAt e)|].
Qed.

(** X1.  A [set] or a [get] on one key leaves every other key as it was:
    the entry of the other key is unchanged, and a [get] on the other key
    returns what it returned before. *)
Theorem CacheLayer_other_keys (c : gmap jsstring CacheEntry)
    (k k' : jsstring) (v : jsvalue) (ttl : option Z) (now t : Z) :
  k <> k' ->
  CacheLayer.set now k v ttl c !! k' = c !! k'
  /\ snd (CacheLayer.get now k c) !! k' = c !! k'
  /\ fst (CacheLayer.get t k' (CacheLayer.set now k v ttl c))
     = fst (CacheLayer.get t k' c)
  /\ fst (CacheLayer.get t k' (snd (CacheLayer.get now k c)))
     = fst (CacheLayer.get t k' c).
Proof.
  intros Hne.
  assert (CacheLayer.set now k v ttl c !! k' = c !! k') as Hset
    by (unfold CacheLayer.set; by rewrite lookup_insert_ne).
  assert (snd (CacheLayer.get now k c) !! k' = c !! k') as Hget
    by by apply CacheLayer_get_snd_other.
  split; [done|]. split; [done|]. split; by apply CacheLayer_get_fst_ext.
Qed.

Lemma CacheLayer_other_keys_witness :
  CacheLayer.set 1000 (lit "a") (str "v") None {[ lit "b" := {| value := str "w"; expiresAt := 5000 |} ]}
    !! lit "b"
  = Some {| value := str "w"; expiresAt := 5000 |}.
Proof.
  destruct (CacheLayer_other_keys
              {[ lit "b" := {| value := str "w"; expiresAt := 5000 |} ]}
              (lit "a") (lit "b") (str "v") None 1000 1000) as [H _].
  - discriminate.
  - rewrite H. apply lookup_singleton_eq.
Defined.

Lemma run_ops_snoc ops op : run_ops (ops ++ [op]) = apply_op (run_ops ops) op.
Proof. unfold run_ops. by rewrite fold_left_app. Qed.

Lemma run_ops_last_write ops k e :
  run_ops ops !! k = Some e -> last_write k ops = Some e.
Proof.
  revert e. induction ops as [|op ops IH] using rev_ind; intros e.
  - unfold run_ops. simpl. by rewrite lookup_empty.
  - rewrite run_ops_snoc. unfold last_write. rewrite fold_left_app. simpl.
    fold (last_write k ops). destruct op as [now k' v ttl|now k'|]; simpl.
    + unfold CacheLayer.set. case_bool_decide as Hk.
      * subst k'. rewrite lookup_insert_eq. by intros [= <-].
      * rewrite lookup_insert_ne by done. apply IH.
    + intros H%CacheLayer_get_snd_lookup. by apply IH.
    + unfold CacheLayer.clear. by rewrite lookup_empty.
Qed.

(** X2.  After any sequence of [set], [get] and [clear] calls on a new
    cache, a [get] that returns a value returns the value of the last
    [set] on that key, no [clear] has come after that [set], and the
    reading of the clock is not past the [expiresAt] that [set] stored. *)
Theorem CacheLayer_get_last_write (ops : list CacheOp) (now : Z)
    (key : jsstring) (v : jsvalue) :
  fst (CacheLayer.get now key (run_ops ops)) = Some v ->
  exists e, last_write key ops = Some e /\ value e = v /\ now <= expiresAt e.
Proof.
  intros (e & Hk & Hv & Ht & _)%CacheLayer_get_Some.
  exists e. split; [by apply run_ops_last_write|done].
Qed.

Lemma CacheLayer_get_last_write_witness :
  exists e,
    last_write (lit "k")
      [OpSet 0 (lit "k") (str "old") None; OpClear;
       OpSet 1000 (lit "k") (str "new") (Some 500); OpGet 1200 (lit "j")]
    = Some e
    /\ value e = str "new" /\ 1400 <= expiresAt e.
Proof.
  apply (CacheLayer_get_last_write
           [OpSet 0 (lit "k") (str "old") None; OpClear;
            OpSet 1000 (lit "k") (str "new") (Some 500); OpGet 1200 (lit "j")]
           1400 (lit "k") (str "new")).
  vm_compute. reflexivity.
Defined.

(** ** The hash of the dataset versions *)

Lemma toInt32_add_l a b : toInt32 (toInt32 a + b) = toInt32 (a + b).
Proof.
  unfold toInt32. f_equal.
  replace ((a + 2147483648) mod 4294967296 - 2147483648 + b + 2147483648)
    with ((a + 2147483648) mod 4294967296 + b) by lia.
  rewrite Zplus_mod_idemp_l. f_equal. lia.
Qed.

Lemma toInt32_mul_r a b : toInt32 (a * toInt32 b) = toInt32 (a * b).
Proof.
  unfold toInt32. f_equal.
  rewrite <- (Zplus_mod_idemp_l (a * _)), <- (Zplus_mod_idemp_l (a * b)).
  f_equal. f_equal.
  rewrite <- Zmult_mod_idemp_r.
  replace ((b + 2147483648) mod 4294967296 - 2147483648)
    with ((b + 2147483648) mod 4294967296 + (-1) * 2147483648) by lia.
  rewrite <- Zplus_mod_idemp_l, Z.mod_mod by lia.
  rewrite Zplus_mod_idemp_l.
  replace (b + 2147483648 + -1 * 2147483648) with b by lia.
  by rewrite Zmult_mod_idemp_r.
Qed.

Lemma toInt32_range z : -2147483648 <= toInt32 z < 2147483648.
Proof.
  unfold toInt32.
  pose proof (Z.mod_pos_bound (z + 2147483648) 4294967296). lia.
Qed.

Lemma hash_step_poly h c : hash_step h c = toInt32 (31 * h + Z.of_N c).
Proof.
  unfold hash_step.
  replace (toInt32 (h * 32) - h + Z.of_N c)
    with (toInt32 (h * 32) + (- h + Z.of_N c)) by lia.
  rewrite toInt32_add_l. f_equal. lia.
Qed.

Lemma fold_hash_step_poly str h a :
  h = toInt32 a ->
  fold_left hash_step str h
  = toInt32 (fold_left (fun acc c => 31 * acc + Z.of_N c) str a).
Proof.
  revert h a. induction str as [|c str IH]; intros h a ->; [done|].
  simpl. apply IH. rewrite hash_step_poly.
  rewrite <- (toInt32_add_l (31 * toInt32 a)), toInt32_mul_r.
  by rewrite toInt32_add_l.
Qed.

(** X3.  The loop of [hashObject] computes the polynomial hash with
    multiplier 31 of the code units, wrapped once to a signed 32-bit
    integer: wrapping at every step, as the loop does, loses nothing. *)
Theorem hashObject_loop_poly31 (str : jsstring) :
  fold_left hash_step str 0 = toInt32 (poly31 str)
  /\ -2147483648 <= fold_left hash_step str 0 < 2147483648.
Proof.
  assert (fold_left hash_step str 0 = toInt32 (poly31 str)) as H
    by by apply fold_hash_step_poly.
  split; [done|]. rewrite H. apply toInt32_range.
Qed.

Lemma digit_char_spec d :
  0 <= d < 36 ->
  is_base36_char (digit_char d) = true /\ digit_value (digit_char d) = d.
Proof.
  intros Hd. unfold digit_char, digit_value, is_base36_char.
  destruct (Z.ltb_spec d 10).
  - assert (Z.to_N (48 + d) < 58)%N as Hlt by lia.
    apply N.ltb_lt in Hlt. rewrite Hlt. split; [|lia].
    apply orb_true_iff. left. apply andb_true_iff. split; apply N.leb_le; lia.
  - assert (58 <= Z.to_N (87 + d))%N as Hge by lia.
    apply N.ltb_ge in Hge. rewrite Hge. split; [|lia].
    apply orb_true_iff. right. apply andb_true_iff. split; apply N.leb_le; lia.
Qed.

Lemma digits_value_snoc r ds c :
  digits_value r (ds ++ [c]) = digits_value r ds * r + digit_value c.
Proof. unfold digits_value. by rewrite fold_left_app. Qed.

(** With fuel for [k] digits, a number below [radix ^ k] is printed in
    full, in at most [k] digits. *)
Lemma digits_fuel_spec r :
  2 <= r <= 36 ->
  forall (fuel k : nat) (n : Z) (acc : jsstring),
    (1 <= k <= fuel)%nat -> 0 <= n < r ^ Z.of_nat k ->
    exists ds, digits_fuel fuel r n acc = ds ++ acc
               /\ digits_value r ds = n
               /\ (1 <= length ds <= k)%nat
               /\ forallb is_base36_char ds = true.
Proof.
  intros Hr. induction fuel as [|fuel IH]; intros k n acc Hk Hn; [lia|].
  simpl.
  assert (0 <= n mod r < r) as Hmod by (apply Z.mod_pos_bound; lia).
  destruct (digit_char_spec (n mod r)) as [Hchar Hval]; [lia|].
  destruct (Z.eqb_spec (n / r) 0) as [Hq|Hq].
  - exists [digit_char (n mod r)]. split; [done|]. split.
    + unfold digits_value. simpl. rewrite Hval.
      rewrite (Z.div_mod n r) at 2 by lia. rewrite Hq. lia.
    + simpl. rewrite Hchar. split; [lia|done].
  - assert (1 <= n / r) as Hpos.
    { assert (0 <= n / r) by (apply Z.div_pos; lia). lia. }
    destruct k as [|k]; [lia|].
    assert (n / r < r ^ Z.of_nat k) as Hlt.
    { apply Z.div_lt_upper_bound; [lia|].
      replace (r * r ^ Z.of_nat k) with (r ^ Z.of_nat (S k)); [lia|].
      rewrite Nat2Z.inj_succ, Z.pow_succ_r; lia. }
    assert (k <> 0)%nat as Hk0.
    { intros ->. simpl in Hlt. lia. }
    destruct (IH k (n / r) (digit_char (n mod r) :: acc)) as (ds & Heq & Hv & Hl & Hc);
      [lia|lia|].
    exists (ds ++ [digit_char (n mod r)]). split.
    + rewrite Heq. by rewrite <- app_assoc.
    + split; [|split].
      * rewrite digits_value_snoc, Hv, Hval.
        rewrite (Z.div_mod n r) at 3 by lia. lia.
      * rewrite length_app. simpl. lia.
      * rewrite forallb_app, Hc. simpl. by rewrite Hchar.
Qed.

Lemma toString_radix_spec r n k :
  2 <= r <= 36 -> 0 <= n < r ^ Z.of_nat k -> (1 <= k)%nat ->
  digits_value r (toString_radix r n) = n
  /\ (1 <= length (toString_radix r n) <= k)%nat
  /\ forallb is_base36_char (toString_radix r n) = true.
Proof.
  intros Hr Hn Hk. unfold toString_radix.
  set (fuel := S (Z.to_nat (Z.log2 n))).
  assert (n < r ^ Z.of_nat fuel) as Hfuel.
  { destruct (Z.eq_dec n 0) as [->|Hn0].
    - apply Z.pow_pos_nonneg; lia.
    - assert (n < 2 ^ Z.succ (Z.log2 n)) by (apply Z.log2_spec; lia).
      assert (0 <= Z.log2 n) by apply Z.log2_nonneg.
      unfold fuel. rewrite Nat2Z.inj_succ, Z2Nat.id by lia.
      assert (2 ^ Z.succ (Z.log2 n) <= r ^ Z.succ (Z.log2 n))
        by (apply Z.pow_le_mono_l; lia).
      lia. }
  destruct (le_lt_dec k fuel) as [Hle|Hgt].
  - destruct (digits_fuel_spec r Hr fuel k n []) as (ds & Heq & Hv & Hl & Hc);
      [lia|lia|].
    rewrite Heq, app_nil_r. done.
  - destruct (digits_fuel_spec r Hr fuel fuel n []) as (ds & Heq & Hv & Hl & Hc);
      [unfold fuel; lia|lia|].
    rewrite Heq, app_nil_r. repeat split; try done; lia.
Qed.

(** X4.  Whatever is hashed, the text [hashObject] returns is the base-36
    numeral of the absolute value of the 32-bit hash: it reads back to that
    value, has between one and six characters, and each is a digit or a
    lowercase letter, so it holds neither of the delimiters of the key. *)
Theorem hashString_numeral (str : jsstring) :
  let s := hashString str in
  digits_value 36 s = Z.abs (fold_left hash_step str 0)
  /\ (1 <= length s <= 6)%nat
  /\ forallb is_base36_char s = true
  /\ (colon ∉ s) /\ (comma ∉ s).
Proof.
  intros s. unfold s, hashString.
  assert (-2147483648 <= fold_left hash_step str 0 < 2147483648) as Hrange.
  { rewrite (fold_hash_step_poly str 0 0) by done. apply toInt32_range. }
  destruct (toString_radix_spec 36 (Z.abs (fold_left hash_step str 0)) 6)
    as (Hv & Hl & Hc); [lia| |lia|].
  { change (36 ^ Z.of_nat 6) with 2176782336. lia. }
  split; [done|]. split; [done|]. split; [done|].
  rewrite forallb_forall in Hc.
  split; intros Hin%list_elem_of_In; apply Hc in Hin; discriminate Hin.
Qed.

(** ** The contract: what a passed validation guarantees *)


Lemma run_object_field_valid shape p v k sk :
  fst (run (ZObject shape) p v) = [] -> (k, sk) ∈ shape ->
  fst (run sk (p ++ [Key k]) (prop v k)) = [].
Proof.
  destruct v as [| | | | | |props|]; try discriminate.
  intros Hnil. pose proof (run_object_valid _ _ _ Hnil) as Hth. revert Hnil.
  rewrite run_object_eq by done. cbn [fst prop].
  induction shape as [|[k' sk'] rest IH]; intros Hnil Hin;
    [by apply elem_of_nil in Hin|].
  simpl in Hnil. apply app_eq_nil in Hnil as [Hhd Htl].
  apply elem_of_cons in Hin as [Heq|Hin]; [by simplify_eq | by apply IH].
Qed.

Lemma flat_map_nil_inv {A B} (f : A -> list B) l x :
  flat_map f l = [] -> x ∈ l -> f x = [].
Proof.
  induction l as [|y l IH]; simpl; [by intros _ ?%elem_of_nil|].
  intros [Hy Hl]%app_eq_nil [->|Hin]%elem_of_cons; [done|by apply IH].
Qed.

Lemma run_array_valid element min1 p v :
  fst (run (ZArray element min1) p v) = [] ->
  exists items, v = VArr items
    /\ (is_Some min1 -> items <> [])
    /\ forall i x, items !! i = Some x ->
                   fst (run element (p ++ [Index i]) x) = [].
Proof.
  destruct v as [| | | | |items| |]; try discriminate.
  cbn [run fst]. intros [Hsmall Hitems]%app_eq_nil.
  exists items. split; [done|]. split.
  - intros [m ->] ->. discriminate Hsmall.
  - intros i x Hi.
    apply (flat_map_nil_inv fst _ (run element (p ++ [Index i]) x)) in Hitems;
      [done|].
    apply list_elem_of_lookup. exists i.
    by rewrite list_lookup_imap, Hi.
Qed.

Lemma run_number_range lo hi mlo mhi p v :
  fst (run (ZNumber [Min lo mlo; Max hi mhi]) p v) = [] -> in_range lo hi v.
Proof.
  destruct v as [| | |n| | | |]; try discriminate.
  destruct n as [|neg|q]; [discriminate|..]; cbn [run fst flat_map check_issue].
  - destruct neg; simpl; discriminate.
  - unfold num_lt, num_gt.
    destruct (Qle_bool (inject_Z lo) q) eqn:Hlo; [|discriminate].
    destruct (Qle_bool q (inject_Z hi)) eqn:Hhi; [|discriminate].
    intros _. exists q. by rewrite <- !Qle_bool_iff.
Qed.

Lemma run_enum_valid options em p v :
  fst (run (ZEnum options em) p v) = [] -> exists x, v = VStr x /\ x ∈ options.
Proof.
  destruct v as [| | | |x| | |]; try discriminate. simpl.
  case_bool_decide; [eauto|discriminate].
Qed.

Lemma run_literal_valid expected em p v :
  fst (run (ZLiteral expected em) p v) = [] -> v = VStr expected.
Proof.
  simpl. destruct (is_string expected v) eqn:H; [|discriminate].
  intros _. destruct v; try discriminate H. simpl in H.
  by apply bool_decide_eq_true in H as ->.
Qed.

Lemma validateDashboard_success d :
  success (validateDashboard d) = true ->
  fst (run DashboardViewModelSchema [] d) = [].
Proof.
  unfold validateDashboard, parse.
  by destruct (run DashboardViewModelSchema [] d) as [[|i l] out].
Qed.

(** X5.  A value that passes [validateDashboard] keeps the numeric and
    structural promises of the contract: the unit is the degree sign and
    "C", the warming estimate is a finite number in [0, 10], the spillover
    score is a finite number in [0, 1], the node list is not empty and
    every node has a severity in [0, 1] and one of the three arrows as its
    drift direction, and the list of dataset versions is not empty. *)
Theorem validateDashboard_sound (d : jsvalue) :
  success (validateDashboard d) = true ->
  let baseline := prop d (lit "baseline") in
  let chain := prop d (lit "risk_chain") in
  prop baseline (lit "unit") = VStr degrees_C
  /\ in_range 0 10 (prop baseline (lit "warming_estimate"))
  /\ in_range 0 1 (prop (prop chain (lit "spillover")) (lit "score"))
  /\ (exists nodes,
        prop chain (lit "nodes") = VArr nodes /\ nodes <> []
        /\ forall node, node ∈ nodes ->
             in_range 0 1 (prop node (lit "severity"))
             /\ exists dir,
                  prop (prop node (lit "drift")) (lit "direction") = VStr dir
                  /\ dir ∈ [arrow_up; arrow_down; arrow_right])
  /\ (exists versions,
        prop (prop d (lit "metadata")) (lit "dataset_versions") = VArr versions
        /\ versions <> []).
Proof.
  intros Hok%validateDashboard_success baseline chain.
  pose proof (run_object_field_valid _ _ _ (lit "baseline") BaselineSchema Hok
                ltac:(by right; left)) as Hbase.
  pose proof (run_object_field_valid _ _ _ (lit "risk_chain") RiskChainSchema Hok
                ltac:(by do 2 right; left)) as Hchain.
  pose proof (run_object_field_valid _ _ _ (lit "metadata") MetadataSchema Hok
                ltac:(by do 3 right; left)) as Hmeta.
  split.
  { eapply run_literal_valid.
    apply (run_object_field_valid _ _ _ (lit "unit") _ Hbase). by right; left. }
  split.
  { eapply run_number_range.
    apply (run_object_field_valid _ _ _ (lit "warming_estimate") _ Hbase).
    by left. }
  split.
  { eapply run_number_range.
    eapply (run_object_field_valid _ _ _ (lit "score")); [|by left].
    apply (run_object_field_valid _ _ _ (lit "spillover") _ Hchain).
    by do 3 right; left. }
  split.
  { pose proof (run_object_field_valid _ _ _ (lit "nodes") _ Hchain
                  ltac:(by do 2 right; left)) as Hnodes.
    apply run_array_valid in Hnodes as (nodes & Heq & Hne & Hall).
    exists nodes. split; [done|]. split; [by apply Hne|].
    intros node [i Hi]%list_elem_of_lookup. specialize (Hall i node Hi). split.
    - eapply run_number_range.
      apply (run_object_field_valid _ _ _ (lit "severity") _ Hall).
      by do 3 right; left.
    - eapply run_enum_valid.
      eapply (run_object_field_valid _ _ _ (lit "direction")); [|by left].
      apply (run_object_field_valid _ _ _ (lit "drift") _ Hall).
      by do 6 right; left. }
  pose proof (run_object_field_valid _ _ _ (lit "dataset_versions") _ Hmeta
                ltac:(by right; left)) as Hver.
  apply run_array_valid in Hver as (versions & Heq & Hne & _).
  exists versions. split; [done|]. by apply Hne.
Qed.

Lemma validateDashboard_sound_witness :
  in_range 0 1
    (prop (prop (prop (sample_payload (62 # 100)) (lit "risk_chain"))
             (lit "spillover")) (lit "score")).
Proof.
  destruct (validateDashboard_sound (sample_payload (62 # 100)))
    as (_ & _ & Hscore & _).
  - vm_compute. reflexivity.
  - exact Hscore.
Defined.

(** ** The contract: validating what was validated *)

Lemma check_issues_path p p' n cs :
  flat_map (check_issue p n) cs = [] -> flat_map (check_issue p' n) cs = [].
Proof.
  induction cs as [|c cs IH]; [done|]. simpl.
  intros [Hc Hcs]%app_eq_nil. rewrite (IH Hcs), app_nil_r.
  destruct c as [b m|b m]; simpl in *;
    [destruct (num_lt n b)|destruct (num_gt n b)]; done.
Qed.

Lemma keys_distinct_object shape :
  keys_distinct (ZObject shape) = true ->
  NoDup (map fst shape) /\ Forall (fun q => keys_distinct (snd q) = true) shape.
Proof.
  simpl. intros [Hnd Hall]%andb_prop. split; [by apply bool_decide_eq_true in Hnd|].
  clear Hnd. induction shape as [|[k sk] rest IH]; [done|].
  apply andb_prop in Hall as [Hk Hrest]. constructor; [done|by apply IH].
Qed.

Lemma fields_with_keys runf p props sh k :
  k ∉ map fst sh -> assoc k (snd (fields_with runf p props sh)) = None.
Proof.
  induction sh as [|[k' sk] rest IH]; [done|]. simpl.
  intros Hnot. apply not_elem_of_cons in Hnot as [Hne Hnot].
  destruct (_ && _); [by apply IH|]. simpl.
  rewrite bool_decide_eq_false_2 by done. by apply IH.
Qed.

Lemma fields_with_reparse shape p p' props :
  Forall (fun q => reparses (snd q)) shape ->
  NoDup (map fst shape) ->
  forall o, fields_with run p props shape = ([], o) ->
  forall full, (forall k, k ∈ map fst shape -> assoc k full = assoc k o) ->
  fields_with run p' full shape = ([], o).
Proof.
  induction 1 as [|[k sk] rest Hsk Hrest IH]; intros Hnd o Hrun full Hfull.
  - simpl in *. by simplify_eq.
  - apply NoDup_cons in Hnd as [Hk Hnd]. cbn [fields_with] in Hrun |- *.
    cbn [snd] in Hsk.
    destruct (run sk (p ++ [Key k]) (default VUndefined (assoc k props)))
      as [ik outk] eqn:Hr.
    destruct (fields_with run p props rest) as [irest orest] eqn:Hrr.
    cbn [fst snd] in Hrun.
    destruct (is_undefined outk && negb (has_prop (VObj props) k)) eqn:Hskip;
      injection Hrun as Hiss <-;
      apply app_eq_nil in Hiss as [-> ->];
      (assert (assoc k full = assoc k _) as Hlook by (apply Hfull; left)).
    + (* the key was left out *)
      apply andb_prop in Hskip as [Hundef _].
      destruct outk; try discriminate Hundef.
      assert (assoc k orest = None) as Hnone.
      { replace orest with (snd (fields_with run p props rest)) by by rewrite Hrr.
        by apply fields_with_keys. }
      rewrite Hnone in Hlook. rewrite Hlook. cbn [from_option].
      rewrite (Hsk _ (p' ++ [Key k]) _ _ Hr).
      rewrite (IH Hnd orest eq_refl full)
        by (intros k' Hk'; apply Hfull; by right).
      cbn [fst snd is_undefined has_prop]. rewrite Hlook.
      by rewrite bool_decide_eq_false_2 by by intros [? ?].
    + (* the key was kept *)
      simpl in Hlook. rewrite bool_decide_eq_true_2 in Hlook by done.
      rewrite Hlook. cbn [from_option]. unfold id.
      rewrite (Hsk _ (p' ++ [Key k]) _ _ Hr).
      rewrite (IH Hnd orest eq_refl full).
      * cbn [fst snd has_prop]. rewrite Hlook.
        rewrite bool_decide_eq_true_2 by eauto. by rewrite andb_false_r.
      * intros k' Hk'. rewrite Hfull by by right. simpl.
        rewrite bool_decide_eq_false_2; [done|]. by intros ->.
Qed.

Lemma imap_run_reparse element (g g' : nat -> list pathseg) items :
  reparses element ->
  flat_map fst (imap (fun i x => run element (g i) x) items) = [] ->
  imap (fun i x => run element (g' i) x)
       (map snd (imap (fun i x => run element (g i) x) items))
  = map (fun x => ([], x)) (map snd (imap (fun i x => run element (g i) x) items)).
Proof.
  intros Hel. revert g g'. induction items as [|x items IH]; intros g g'; [done|].
  simpl. intros [Hx Hrest]%app_eq_nil.
  destruct (run element (g 0%nat) x) as [ix outx] eqn:Hr. simpl in Hx. subst ix.
  simpl. f_equal; [by apply (Hel _ _ _ _ Hr)|].
  apply (IH (g ∘ S) (g' ∘ S)), Hrest.
Qed.

(** What a parse without issues puts out is no function, so an object it
    puts out is not taken for a promise. *)
Lemma run_valid_not_function s p v :
  fst (run s p v) = [] -> is_function (snd (run s p v)) = false.
Proof.
  revert p v. induction s as [m|cs|o e|x e|el m IHel|shape|inner IH]; intros p v.
  - by destruct v as [| | | |[|c y]| | |], m.
  - destruct v as [| | |[| |q]| | | |]; done.
  - destruct v; try done. cbn [run]. by case_bool_decide.
  - cbn [run]. destruct (is_string x v) eqn:Hs; [|done].
    by destruct v.
  - by destruct v.
  - destruct v; try done. cbn [run]. by destruct (is_thenable _).
  - destruct v; try done; apply IH.
Qed.

Lemma fields_with_not_function p props shape k :
  fst (fields_with run p props shape) = [] ->
  is_function (default VUndefined (assoc k (snd (fields_with run p props shape))))
  = false.
Proof.
  induction shape as [|[k' sk] shape IH]; [done|]. cbn [fields_with fst snd].
  intros [Hr Hrest]%app_eq_nil.
  destruct (_ && _); [by apply IH|]. cbn [assoc].
  case_bool_decide; [by apply run_valid_not_function|by apply IH].
Qed.

Lemma fields_with_not_thenable p props shape :
  fst (fields_with run p props shape) = [] ->
  is_thenable (VObj (snd (fields_with run p props shape))) = false.
Proof.
  intros Hok. unfold is_thenable. cbn [prop].
  by rewrite (fields_with_not_function _ _ _ (lit "then")).
Qed.

Lemma keys_distinct_reparses s : keys_distinct s = true -> reparses s.
Proof.
  induction s as [m|cs|o e|x e|el m IH|shape IH|inner IH] using schema_nested_ind;
    intros Hkd p p' v out Hrun.
  - destruct v as [| | | |s| | |]; try discriminate Hrun.
    simpl in *. by destruct s, m; simplify_eq.
  - destruct v as [| | |n| | | |]; try discriminate Hrun.
    destruct n as [|neg|q]; [discriminate Hrun|..]; cbn [run] in *;
      injection Hrun as Hc <-; by rewrite (check_issues_path _ p' _ _ Hc).
  - destruct v as [| | | |s| | |]; try discriminate Hrun. simpl in *.
    case_bool_decide; simplify_eq. simpl. by rewrite bool_decide_eq_true_2.
  - simpl in *. destruct (is_string x v) eqn:Hs; simplify_eq. by rewrite Hs.
  - destruct v as [| | | | |items| |]; try discriminate Hrun.
    cbn [run] in *. injection Hrun as Hiss <-.
    apply app_eq_nil in Hiss as [Hsmall Hitems].
    rewrite (imap_run_reparse el _ (fun i => p' ++ [Index i]) _ (IH Hkd) Hitems).
    assert (forall l : list jsvalue,
              flat_map fst (map (fun x : jsvalue => (@nil ZodIssue, x)) l) = []
              /\ map snd (map (fun x : jsvalue => (@nil ZodIssue, x)) l) = l)
      as Hpairs.
    { intros l. induction l as [|y l [IH1 IH2]]; [done|]. simpl. by rewrite IH2. }
    destruct (Hpairs (map snd (imap (fun i x => run el (p ++ [Index i]) x) items)))
      as [-> ->].
    rewrite app_nil_r. f_equal.
    destruct items, m; simpl in *; done.
  - apply keys_distinct_object in Hkd as [Hnd Hall].
    destruct v as [| | | | | |props|]; try discriminate Hrun.
    assert (is_thenable (VObj props) = false) as Hth
      by (apply (run_object_valid shape p); by rewrite Hrun).
    rewrite run_object_eq in Hrun by done.
    pose proof (fields_with_not_thenable p props shape) as Hout.
    destruct (fields_with run p props shape) as [iss o] eqn:Hf.
    simpl in Hrun, Hout. injection Hrun as -> <-.
    rewrite run_object_eq by by apply Hout.
    rewrite (fields_with_reparse shape p p' props) with (o := o); try done.
    rewrite Forall_forall in IH, Hall. apply Forall_forall.
    intros q Hq. by apply IH, Hall.
  - simpl in *. destruct v; simplify_eq; try done;
      rewrite (IH Hkd _ p' _ _ Hrun); by destruct out.
Qed.

Lemma DashboardViewModelSchema_keys_distinct :
  keys_distinct DashboardViewModelSchema = true.
Proof. vm_compute. reflexivity. Qed.

Lemma fields_with_required p props shape :
  Forall (fun q => exists sh, snd q = ZObject sh) shape ->
  fst (fields_with run p props shape) = [] ->
  map fst (snd (fields_with run p props shape)) = map fst shape.
Proof.
  induction 1 as [|[k sk] rest [sh Hsk] Hrest IH]; [done|].
  simpl in Hsk. subst sk. cbn [fields_with fst snd].
  intros [Hk Hr]%app_eq_nil.
  destruct (default VUndefined (assoc k props)) as [| | | | | |x|];
    [discriminate Hk..| |discriminate Hk].
  rewrite run_object_eq by by apply (run_object_valid sh (p ++ [Key k])).
  cbn [fst snd is_undefined andb map].
  f_equal. by apply IH.
Qed.

(** X6.  The data that [validateDashboard] returns on success is stable:
    validating it again succeeds and returns it unchanged.  It is an object
    with exactly the four sections of the contract as its keys, whatever
    other keys the payload had. *)
Theorem validateDashboard_idempotent (d out : jsvalue) :
  validateDashboard d = {| success := true; data := Some out; errors := None |} ->
  validateDashboard out = {| success := true; data := Some out; errors := None |}
  /\ exists location baseline chain metadata,
       out = VObj [ (lit "location", location); (lit "baseline", baseline);
                    (lit "risk_chain", chain); (lit "metadata", metadata) ].
Proof.
  unfold validateDashboard, parse. intros H.
  destruct (run DashboardViewModelSchema [] d) as [[|i l] o] eqn:Hrun;
    [|discriminate H].
  injection H as ->. split.
  - by rewrite (keys_distinct_reparses _ DashboardViewModelSchema_keys_distinct
                  _ [] _ _ Hrun).
  - destruct d as [| | | | | |props|];
      [discriminate Hrun..| |discriminate Hrun].
    unfold DashboardViewModelSchema in Hrun.
    rewrite run_object_eq in Hrun
      by (eapply (run_object_valid _ []); by rewrite Hrun).
    match type of Hrun with
    | context [fields_with run [] props ?sh] =>
        pose proof (fields_with_required [] props sh) as Hkeys;
        destruct (fields_with run [] props sh) as [iss fields]
    end.
    cbn [fst snd] in Hrun, Hkeys. injection Hrun as -> <-.
    specialize (Hkeys ltac:(repeat constructor; eexists; reflexivity) eq_refl).
    destruct fields as [|[k1 v1] [|[k2 v2] [|[k3 v3] [|[k4 v4] [|]]]]];
      try discriminate Hkeys.
    injection Hkeys as -> -> -> ->. eauto.
Qed.

Lemma validateDashboard_idempotent_witness :
  exists out,
    validateDashboard out = {| success := true; data := Some out; errors := None |}
    /\ data (validateDashboard (sample_payload (62 # 100))) = Some out.
Proof.
  eexists. split.
  - eapply (validateDashboard_idempotent (sample_payload (62 # 100))).
    vm_compute. reflexivity.
  - vm_compute. reflexivity.
Defined.

(** ** The contract: what the errors name *)

Lemma run_array_item element min1 p items i x iss :
  items !! i = Some x ->
  iss ∈ fst (run element (p ++ [Index i]) x) ->
  iss ∈ fst (run (ZArray element min1) p (VArr items)).
Proof.
  intros Hi Hiss. cbn [run fst]. apply elem_of_app. right.
  apply list_elem_of_In, in_flat_map.
  exists (run element (p ++ [Index i]) x). split; [|by apply list_elem_of_In].
  apply list_elem_of_In, list_elem_of_lookup. exists i.
  by rewrite list_lookup_imap, Hi.
Qed.

(** X7.  A value that is not an object fails validation with exactly one
    error, whose path is empty: ": Required" for [undefined], and
    ": Expected object, received " followed by the type name otherwise. *)
Theorem validateDashboard_not_object (v : jsvalue) :
  (forall props, v <> VObj props) ->
  validateDashboard v
  = {| success := false; data := None;
       errors := Some [ lit ": "
                        ++ match v with
                           | VUndefined => lit "Required"
                           | _ => lit "Expected object, received "
                                  ++ getParsedType v
                           end ] |}.
Proof.
  intros Hv. destruct v as [| | |n|s|items|props|t];
    try reflexivity. by destruct (Hv props).
Qed.

Lemma validateDashboard_not_object_witness :
  validateDashboard VNull
  = {| success := false; data := None;
       errors := Some [ lit ": Expected object, received null" ] |}.
Proof. apply (validateDashboard_not_object VNull). discriminate. Defined.

(** X8.  In every build, the validator, called on a payload object made
    of plain data (as a parsed JSON text is) that lacks one of the four
    sections, returns a failure whose errors hold "<section>: Required"
    for that section. *)
Theorem validateDashboard_missing_section (development : bool)
    (props : list (jsstring * jsvalue)) (section : jsstring) :
  plain_data (VObj props) = true ->
  section ∈ [lit "location"; lit "baseline"; lit "risk_chain"; lit "metadata"] ->
  assoc section props = None ->
  exists r,
    validateDashboard_call development (plain (VObj props)) = Return r
    /\ success r = false
    /\ exists errs, errors r = Some errs
                    /\ (section ++ lit ": Required") ∈ errs.
Proof.
  intros Hplain Hsec Hnone.
  rewrite validateDashboard_call_plain_data by done.
  eexists. split; [done|].
  assert (exists sh, (section, ZObject sh)
                     ∈ [ (lit "location", LocationSchema);
                         (lit "baseline", BaselineSchema);
                         (lit "risk_chain", RiskChainSchema);
                         (lit "metadata", MetadataSchema) ]) as [sh Hin].
  { repeat (apply elem_of_cons in Hsec as [->|Hsec];
            [eexists; by repeat (first [left; reflexivity | right])|]).
    by apply elem_of_nil in Hsec. }
  apply (validateDashboard_issue _
           {| path := [Key section]; message := lit "Required";
              received := None |}).
  apply (run_object_field _ _ _ _ _ _ (plain_data_not_thenable _ Hplain) Hin).
  cbn [prop]. rewrite Hnone. by left.
Qed.

Lemma validateDashboard_missing_section_witness :
  exists r,
    validateDashboard_call true (plain (VObj [(lit "location", VNull)])) = Return r
    /\ success r = false
    /\ exists errs, errors r = Some errs /\ lit "metadata: Required" ∈ errs.
Proof.
  apply (validateDashboard_missing_section true [(lit "location", VNull)]
           (lit "metadata")).
  - reflexivity.
  - do 3 right. left.
  - reflexivity.
Defined.

(** X9.  In every build, the validator, called on a payload made of plain
    data (as a parsed JSON text is), returns a result whose errors hold
    "risk_chain.nodes.<i>.severity: Severity must be <= 1" when the node
    list has, at index [i], a node with a severity above one, and
    "risk_chain.nodes: Risk chain must have at least one node" when the
    node list is empty. *)
Theorem validateDashboard_node_errors (development : bool) (d : jsvalue)
    (nodes : list jsvalue) :
  plain_data d = true ->
  prop (prop d (lit "risk_chain")) (lit "nodes") = VArr nodes ->
  exists r,
    validateDashboard_call development (plain d) = Return r
    /\ (nodes = [] ->
        lit "risk_chain.nodes: Risk chain must have at least one node"
        ∈ default [] (errors r))
    /\ (forall i node n,
          nodes !! i = Some node ->
          prop node (lit "severity") = VNum n -> num_gt n 1 = true ->
          (lit "risk_chain.nodes." ++ nat_to_string i
           ++ lit ".severity: Severity must be <= 1") ∈ default [] (errors r)).
Proof.
  intros Hplain Hnodes.
  rewrite validateDashboard_call_plain_data by done.
  eexists. split; [done|].
  set (errs := default [] (errors (validateDashboard d))).
  destruct d as [| | | | | |props|]; try discriminate Hnodes.
  assert (plain_data (prop (VObj props) (lit "risk_chain")) = true) as Hplain1
    by by apply plain_data_prop.
  destruct (prop (VObj props) (lit "risk_chain")) as [| | | | | |chain|] eqn:Hchain;
    try discriminate Hnodes.
  assert (plain_data (VArr nodes) = true) as Hplain2
    by (rewrite <- Hnodes; by apply plain_data_prop).
  assert (forall iss,
            iss ∈ fst (run (ZArray RiskNodeSchema
                              (Some (lit "Risk chain must have at least one node")))
                         [Key (lit "risk_chain"); Key (lit "nodes")] (VArr nodes)) ->
            format_issue iss ∈ errs) as Hlift.
  { intros iss Hiss. unfold errs.
    destruct (validateDashboard_issue (VObj props) iss) as (_ & es & -> & Hes);
      [|done].
    apply (run_object_field _ _ _ (lit "risk_chain") RiskChainSchema);
      [by apply plain_data_not_thenable | by do 2 right; left|].
    rewrite Hchain.
    apply (run_object_field _ _ _ (lit "nodes")
             (ZArray RiskNodeSchema
                (Some (lit "Risk chain must have at least one node"))));
      [by apply plain_data_not_thenable | by do 2 right; left|].
    by rewrite Hnodes. }
  split.
  - intros ->.
    apply (Hlift {| path := [Key (lit "risk_chain"); Key (lit "nodes")];
                    message := lit "Risk chain must have at least one node";
                    received := None |}).
    by left.
  - intros i node n Hi Hsev Hgt.
    destruct node as [| | | | | |fields|]; try discriminate Hsev.
    assert (format_issue
              {| path := [Key (lit "risk_chain"); Key (lit "nodes"); Index i;
                          Key (lit "severity")];
                 message := lit "Severity must be <= 1";
                 received := None |}
            = lit "risk_chain.nodes." ++ nat_to_string i
              ++ lit ".severity: Severity must be <= 1") as <-.
    { unfold format_issue. cbn [path message map pathseg_string].
      generalize (nat_to_string i). intros s. cbn [join].
      change (lit "risk_chain.nodes.")
        with (lit "risk_chain" ++ lit "." ++ lit "nodes" ++ lit ".").
      change (lit ".severity: Severity must be <= 1")
        with (lit "." ++ lit "severity" ++ lit ": " ++ lit "Severity must be <= 1").
      by rewrite <- !app_assoc. }
    apply Hlift.
    apply (run_array_item _ _ _ _ i (VObj fields)); [done|].
    apply (run_object_field _ _ _ (lit "severity")
             (ZNumber [ Min 0 (Some (lit "Severity must be >= 0"));
                        Max 1 (Some (lit "Severity must be <= 1")) ]));
      [apply plain_data_not_thenable; by apply (plain_data_item nodes i)
      | by do 3 right; left|].
    rewrite Hsev. destruct n as [|neg|q]; [done|..];
      cbn [run flat_map check_issue fst]; rewrite Hgt;
      apply elem_of_app; right; left.
Qed.

Lemma validateDashboard_node_errors_witness :
  exists r,
    validateDashboard_call true
      (plain (VObj [(lit "risk_chain",
                     VObj [(lit "nodes",
                            VArr [VObj [(lit "severity", num (15 # 10))]])])]))
    = Return r
    /\ lit "risk_chain.nodes.0.severity: Severity must be <= 1"
       ∈ default [] (errors r).
Proof.
  destruct (validateDashboard_node_errors true
              (VObj [(lit "risk_chain",
                      VObj [(lit "nodes",
                             VArr [VObj [(lit "severity", num (15 # 10))]])])])
              [VObj [(lit "severity", num (15 # 10))]])
    as (r & Hr & _ & H); [reflexivity | reflexivity |].
  exists r. split; [exact Hr|].
  apply (H 0%nat (VObj [(lit "severity", num (15 # 10))]) (Fin (15 # 10)));
    reflexivity.
Defined.

(** ** The orchestrator: what a call does to the cache *)

Lemma getUnifiedDashboard_lookup_hit h inputs w :
  inputs_missing inputs = false ->
  from_option truthy false
    (fst (CacheLayer.get (now_at_get h) (generateCacheKey inputs) (cache w))) = true ->
  exists e, cache w !! generateCacheKey inputs = Some e
    /\ now_at_get h <= expiresAt e
    /\ getUnifiedDashboard h inputs w
       = (Return (value e),
          {| cache := cache w;
             trace := trace w ++ log_request (generateCacheKey inputs)
                        ++ [Logged info (lit "Cache hit:")] |}).
Proof.
  intros Hin Hlook.
  destruct (fst (CacheLayer.get (now_at_get h) (generateCacheKey inputs) (cache w)))
    as [v|] eqn:Hget; [|done].
  apply CacheLayer_get_Some in Hget as (e & He & <- & Hlive & _).
  exists e. split; [done|]. split; [done|].
  by apply getUnifiedDashboard_hit.
Qed.

(** The three ways a call can end, and the cache each leaves. *)
Lemma getUnifiedDashboard_outcomes h inputs w :
  let key := generateCacheKey inputs in
  let r := getUnifiedDashboard h inputs w in
  let c0 := snd (CacheLayer.get (now_at_get h) key (cache w)) in
  (exists e, fst r = Throw e /\ (cache (snd r) = cache w \/ cache (snd r) = c0))
  \/ (exists e, fst r = Return (value e) /\ cache w !! key = Some e
                /\ cache (snd r) = cache w)
  \/ (exists d, fst r = Return d /\ success (validateDashboard d) = true
                /\ cache (snd r) = CacheLayer.set (now_at_set h) key d None c0).
Proof.
  intros key r c0. subst r c0 key.
  destruct (inputs_missing inputs) eqn:Hin.
  { left. rewrite getUnifiedDashboard_missing by done. eexists. split; [done|].
    by left. }
  destruct (from_option truthy false
              (fst (CacheLayer.get (now_at_get h) (generateCacheKey inputs)
                      (cache w)))) eqn:Hlook.
  { right; left.
    destruct (getUnifiedDashboard_lookup_hit h inputs w Hin Hlook)
      as (e & He & _ & ->).
    by exists e. }
  rewrite getUnifiedDashboard_miss by done.
  pose proof (dispatch_cache h (generateCacheKey inputs) inputs
                (miss_world h inputs w)) as Hc.
  destruct (dispatch h (generateCacheKey inputs) inputs (miss_world h inputs w))
    as [[d|e] w'].
  - cbn [snd] in Hc. destruct (success (validateDashboard d)) eqn:Hvalid.
    + right; right. exists d. split; [done|]. split; [done|].
      cbn [snd cache]. by rewrite Hc.
    + left. eexists. split; [done|]. right. cbn [snd cache]. by rewrite Hc.
  - left. eexists. split; [done|]. right. exact Hc.
Qed.

(** X10.  A call of the orchestrator, however it ends, leaves the cache
    entry of every key other than the key of its inputs as it was. *)
Theorem getUnifiedDashboard_other_keys (h : Host) (inputs : WizardState)
    (w : World) (k : jsstring) :
  k <> generateCacheKey inputs ->
  cache (snd (getUnifiedDashboard h inputs w)) !! k = cache w !! k.
Proof.
  intros Hne.
  assert (snd (CacheLayer.get (now_at_get h) (generateCacheKey inputs) (cache w))
          !! k = cache w !! k) as Hget
    by (by apply CacheLayer_get_snd_other).
  destruct (getUnifiedDashboard_outcomes h inputs w)
    as [(e & _ & [-> | ->]) | [(e & _ & _ & ->) | (d & _ & _ & ->)]];
    try done.
  unfold CacheLayer.set. by rewrite lookup_insert_ne.
Qed.

Lemma getUnifiedDashboard_other_keys_witness :
  cache (snd (getUnifiedDashboard (real_host VNull 3000000)
                (with_hazards scenario_inputs [lit "Storm"]) world_after_first_call))
    !! generateCacheKey scenario_inputs
  = cache world_after_first_call !! generateCacheKey scenario_inputs.
Proof.
  apply (getUnifiedDashboard_other_keys (real_host VNull 3000000)
           (with_hazards scenario_inputs [lit "Storm"]) world_after_first_call
           (generateCacheKey scenario_inputs)).
  vm_compute. discriminate.
Defined.

(** X11.  A call that throws stores nothing: every entry of the cache
    after it was there, unchanged, before it.  (An expired entry of the
    key may have been deleted.) *)
Theorem getUnifiedDashboard_throw_stores_nothing (h : Host) (inputs : WizardState)
    (w : World) (e : thrown) :
  fst (getUnifiedDashboard h inputs w) = Throw e ->
  forall k entry,
    cache (snd (getUnifiedDashboard h inputs w)) !! k = Some entry ->
    cache w !! k = Some entry.
Proof.
  intros Hthrow k entry.
  destruct (getUnifiedDashboard_outcomes h inputs w)
    as [(e' & _ & [-> | ->]) | [(e' & Hr & _) | (d & Hr & _)]];
    [done | apply CacheLayer_get_snd_lookup | congruence..].
Qed.

Lemma getUnifiedDashboard_throw_stores_nothing_witness :
  cache world_after_first_call !! generateCacheKey scenario_inputs
  = Some {| value := sample_payload (62 # 100); expiresAt := 1150 + 3600000 |}.
Proof.
  apply (getUnifiedDashboard_throw_stores_nothing (real_host VNull 3000000)
           (with_hazards scenario_inputs [lit "Storm"]) world_after_first_call
           (Error (lit "TypeError")
              (lit "Cannot read properties of null (reading 'metadata')"))).
  - vm_compute. reflexivity.
  - vm_compute. reflexivity.
Defined.

(** ** The orchestrator: only validated dashboards *)

Lemma getUnifiedDashboard_cache_valid h inputs w :
  cache_valid (cache w) ->
  cache_valid (cache (snd (getUnifiedDashboard h inputs w)))
  /\ forall d, fst (getUnifiedDashboard h inputs w) = Return d ->
               success (validateDashboard d) = true.
Proof.
  intros Hvalid.
  assert (cache_valid
            (snd (CacheLayer.get (now_at_get h) (generateCacheKey inputs) (cache w))))
    as Hvalid0.
  { intros k e Hk. apply CacheLayer_get_snd_lookup in Hk. by apply (Hvalid k). }
  destruct (getUnifiedDashboard_outcomes h inputs w)
    as [(e & -> & [-> | ->]) | [(e & -> & He & ->) | (d & -> & Hd & ->)]].
  - done.
  - done.
  - split; [done|]. intros d [= <-]. by apply (Hvalid _ _ He).
  - split; [|by intros d' [= <-]].
    intros k e. unfold CacheLayer.set.
    destruct (decide (k = generateCacheKey inputs)) as [->|Hne].
    + rewrite lookup_insert_eq. by intros [= <-].
    + rewrite lookup_insert_ne by done. apply Hvalid0.
Qed.

Lemma call_sequence_snoc calls c w :
  call_sequence (calls ++ [c]) w
  = snd (getUnifiedDashboard (fst c) (snd c) (call_sequence calls w)).
Proof. unfold call_sequence. by rewrite fold_left_app. Qed.

Lemma call_sequence_cache_valid calls w :
  cache_valid (cache w) -> cache_valid (cache (call_sequence calls w)).
Proof.
  intros Hvalid. induction calls as [|c calls IH] using rev_ind; [done|].
  rewrite call_sequence_snoc. by apply getUnifiedDashboard_cache_valid.
Qed.

(** X12.  Starting from the empty cache, after any sequence of calls (in
    either mode, at any clock readings, with any answers of the remote
    service), every entry of the cache holds a dashboard that passes the
    contract, and a call that returns, from the cache or not, returns a
    dashboard that passes the contract. *)
Theorem getUnifiedDashboard_returns_valid (calls : list (Host * WizardState))
    (h : Host) (inputs : WizardState) (d : jsvalue) :
  fst (getUnifiedDashboard h inputs (call_sequence calls empty_world)) = Return d ->
  success (validateDashboard d) = true
  /\ cache_valid (cache (call_sequence calls empty_world))
  /\ cache_valid (cache (call_sequence (calls ++ [(h, inputs)]) empty_world)).
Proof.
  intros Hr.
  assert (cache_valid (cache (call_sequence calls empty_world))) as Hvalid
    by (by apply call_sequence_cache_valid).
  split; [by apply (getUnifiedDashboard_cache_valid h inputs _ Hvalid)|].
  split; [done|]. by apply call_sequence_cache_valid.
Qed.

Lemma getUnifiedDashboard_returns_valid_witness :
  success (validateDashboard (sample_payload (62 # 100))) = true.
Proof.
  apply (getUnifiedDashboard_returns_valid
           [(real_host (sample_payload (62 # 100)) 1000, scenario_inputs)]
           (real_host VNull 3000000) scenario_inputs (sample_payload (62 # 100))).
  vm_compute. reflexivity.
Defined.

(** ** The orchestrator in mock mode *)

Lemma getUnifiedDashboard_mock_empty h inputs w :
  isMockMode h = true -> cache w = ∅ ->
  (exists e, fst (getUnifiedDashboard h inputs w) = Throw e)
  /\ cache (snd (getUnifiedDashboard h inputs w)) = ∅.
Proof.
  intros Hmock Hempty.
  destruct (inputs_missing inputs) eqn:Hin.
  { rewrite getUnifiedDashboard_missing by done. split; [by eexists|done]. }
  assert (CacheLayer.get (now_at_get h) (generateCacheKey inputs) (cache w)
          = (None, cache w)) as Hget
    by (apply CacheLayer_get_absent; by rewrite Hempty).
  destruct (getUnifiedDashboard_mock_miss h inputs w Hmock Hin) as (events & ->).
  { by rewrite Hget. }
  split; [by eexists|]. unfold miss_world. cbn [snd cache]. by rewrite Hget.
Qed.

(** X13.  In mock mode no call ever returns a dashboard: starting from the
    empty cache, after any sequence of calls made in mock mode, with any
    inputs, a further call in mock mode throws, and the cache is still
    empty.  (The dashboard the mock services assemble never passes the
    contract, whatever the inputs.) *)
Theorem getUnifiedDashboard_mock_never_returns (calls : list (Host * WizardState))
    (h : Host) (inputs : WizardState) :
  Forall (fun c => isMockMode (fst c) = true) calls ->
  isMockMode h = true ->
  (exists e, fst (getUnifiedDashboard h inputs (call_sequence calls empty_world))
             = Throw e)
  /\ cache (call_sequence calls empty_world) = ∅
  /\ cache (snd (getUnifiedDashboard h inputs (call_sequence calls empty_world))) = ∅.
Proof.
  intros Hcalls Hmock.
  assert (cache (call_sequence calls empty_world) = ∅) as Hempty.
  { induction calls as [|c calls IH] using rev_ind; [done|].
    apply Forall_app in Hcalls as [Hcalls Hc%Forall_inv].
    rewrite call_sequence_snoc.
    by destruct (getUnifiedDashboard_mock_empty (fst c) (snd c) _ Hc (IH Hcalls)). }
  destruct (getUnifiedDashboard_mock_empty h inputs _ Hmock Hempty) as [Hthrow Hc].
  done.
Qed.

Lemma getUnifiedDashboard_mock_never_returns_witness :
  exists e,
    fst (getUnifiedDashboard mock_host hazards_split
           (call_sequence [(mock_host, scenario_inputs)] empty_world)) = Throw e.
Proof.
  apply (getUnifiedDashboard_mock_never_returns
           [(mock_host, scenario_inputs)] mock_host hazards_split).
  - repeat constructor.
  - reflexivity.
Defined.

(** ** The orchestrator in real mode *)

Lemma getUnifiedDashboard_real_dispatch h inputs w :
  isMockMode h = false ->
  let key := generateCacheKey inputs in
  let c0 := snd (CacheLayer.get (now_at_get h) key (cache w)) in
  let failed events err :=
    (Throw err,
     {| cache := c0;
        trace := events ++ [Logged error (lit "API call failed")] |}) in
  dispatch h key inputs (miss_world h inputs w)
  = match AbortSignal_timeout h with
    | Throw e => failed (request_begun inputs w) e
    | Return _ =>
        match fetch h (baseURL h ++ lit "/wizard/dashboard") key inputs with
        | Rejected e => failed (request_sent h inputs w) e
        | Responded r =>
            if ok r then
              match json r with
              | Throw e => failed (request_sent h inputs w) e
              | Return VNull =>
                  failed (request_sent h inputs w)
                    (Error (lit "TypeError")
                       (lit "Cannot read properties of null (reading 'metadata')"))
              | Return VUndefined =>
                  failed (request_sent h inputs w)
                    (Error (lit "TypeError")
                       (lit "Cannot read properties of undefined (reading 'metadata')"))
              | Return d =>
                  (Return d,
                   {| cache := c0;
                      trace := request_sent h inputs w
                                 ++ [Logged info (lit "Real API response received")] |})
              end
            else
              match text r with
              | Throw e => failed (request_sent h inputs w) e
              | Return _ =>
                  failed (request_sent h inputs w
                            ++ [Logged error (lit "API request failed")])
                    (Error (lit "Error")
                       (lit "API request failed: " ++ Z_to_string (status r)
                        ++ lit " " ++ statusText r))
              end
        end
    end.
Proof.
  intros Hmock key c0 failed. subst key c0 failed.
  unfold dispatch, dispatch_real. rewrite Hmock. step_M.
  change (getEndpointURL h (lit "/wizard/dashboard"))
    with (baseURL h ++ lit "/wizard/dashboard").
  unfold miss_world, request_sent, request_begun. cbn [cache trace].
  destruct (AbortSignal_timeout h) as [[]|e0]; [|cbn [cache trace]; by norm_trace].
  step_M.
  destruct (fetch h _ _ inputs) as [e|r]; [cbn [cache trace]; by norm_trace|].
  destruct (ok r); cbn [negb];
    [|destruct (text r); cbn [cache trace]; by norm_trace].
  destruct (json r) as [[]|]; cbn [cache trace]; by norm_trace.
Qed.

(** X14.  In real mode, on a cache miss, a request that fails is reported
    and stored nowhere.  When the configured timeout is not a number, is
    negative or is above what the runtime accepts, [AbortSignal.timeout]
    throws while the arguments of [fetch] are evaluated: no request is
    sent and the call throws that error.  Otherwise the call sends one
    request, to the base URL followed by "/wizard/dashboard", with the
    cache key as request id and the inputs as body.  If the request is
    rejected, or the body of an ok answer is not JSON, the call throws that
    same error; if the answer is not ok it throws
    "API request failed: <status> <statusText>" when its text can be
    read, and what reading the text throws when it cannot; if the body is
    JSON [null], it throws a TypeError.  In each case "API call failed" is
    logged, nothing is validated and nothing is written to the cache. *)
Theorem getUnifiedDashboard_real_failure (h : Host) (inputs : WizardState)
    (w : World) :
  isMockMode h = false -> inputs_missing inputs = false -> cache_miss h inputs w ->
  let key := generateCacheKey inputs in
  let answer := fetch h (baseURL h ++ lit "/wizard/dashboard") key inputs in
  let failed events err :=
    (Throw err,
     {| cache := snd (CacheLayer.get (now_at_get h) key (cache w));
        trace := events ++ [Logged error (lit "API call failed")] |}) in
  let sent := request_sent h inputs w in
  (timeout h = None
   \/ (exists delay, timeout h = Some delay
                     /\ (delay < 0 \/ delay_limit h < delay)) ->
   getUnifiedDashboard h inputs w
   = failed (request_begun inputs w) (delay_error h (timeout h)))
  /\ ((exists delay, timeout h = Some delay /\ 0 <= delay <= delay_limit h) ->
      (forall e, answer = Rejected e ->
         getUnifiedDashboard h inputs w = failed sent e)
      /\ (forall r body, answer = Responded r -> ok r = false ->
            text r = Return body ->
            getUnifiedDashboard h inputs w
            = failed (sent ++ [Logged error (lit "API request failed")])
                (Error (lit "Error")
                   (lit "API request failed: " ++ Z_to_string (status r)
                    ++ lit " " ++ statusText r)))
      /\ (forall r e, answer = Responded r -> ok r = false -> text r = Throw e ->
            getUnifiedDashboard h inputs w = failed sent e)
      /\ (forall r e, answer = Responded r -> ok r = true -> json r = Throw e ->
            getUnifiedDashboard h inputs w = failed sent e)
      /\ (forall r, answer = Responded r -> ok r = true -> json r = Return VNull ->
            getUnifiedDashboard h inputs w
            = failed sent
                (Error (lit "TypeError")
                   (lit "Cannot read properties of null (reading 'metadata')")))).
Proof.
  intros Hmock Hin Hmiss key answer failed sent. subst key answer failed sent.
  rewrite getUnifiedDashboard_miss by done.
  rewrite getUnifiedDashboard_real_dispatch by done.
  unfold AbortSignal_timeout. split.
  - intros [-> | (delay & -> & Hout)]; [done|].
    destruct (Z.leb_spec 0 delay), (Z.leb_spec delay (delay_limit h));
      cbn [andb]; (done || lia).
  - intros (delay & -> & Hlo & Hhi).
    destruct (Z.leb_spec 0 delay), (Z.leb_spec delay (delay_limit h));
      cbn [andb]; try lia.
    split; [by intros e ->|]. split; [by intros r body -> -> ->|].
    split; [by intros r e -> -> ->|].
    split; [by intros r e -> -> ->|]. by intros r -> -> ->.
Qed.

Lemma getUnifiedDashboard_real_failure_witness :
  getUnifiedDashboard misconfigured_host scenario_inputs empty_world
  = (Throw (Error (lit "RangeError") (lit "delay is out of range")),
     {| cache := ∅;
        trace := request_begun scenario_inputs empty_world
                   ++ [Logged error (lit "API call failed")] |})
  /\ getUnifiedDashboard unavailable_host scenario_inputs empty_world
     = (Throw (Error (lit "Error")
                 (lit "API request failed: 503 Service Unavailable")),
        {| cache := ∅;
           trace := (request_sent unavailable_host scenario_inputs empty_world
                       ++ [Logged error (lit "API request failed")])
                      ++ [Logged error (lit "API call failed")] |}).
Proof.
  split.
  - destruct (getUnifiedDashboard_real_failure misconfigured_host scenario_inputs
                empty_world) as (H & _); [reflexivity..|].
    apply H. left. reflexivity.
  - destruct (getUnifiedDashboard_real_failure unavailable_host scenario_inputs
                empty_world) as (_ & H); [reflexivity..|].
    destruct H as (_ & H & _);
      [exists 30000; split;
         [reflexivity|unfold unavailable_host; cbn [delay_limit]; lia]|].
    exact (H _ _ eq_refl eq_refl eq_refl).
Defined.

(** X15.  In real mode, on a cache miss, with a configured timeout that
    [AbortSignal.timeout] accepts, when the remote service answers ok with
    a JSON value [d] other than [null]: if [d] passes the contract the
    call returns [d] itself, as received, and stores it under the key
    with an expiry of one hour after the clock reading of the write; if
    [d] fails the contract the call throws "Invalid dashboard structure: "
    followed by the errors joined with ", ", and writes nothing. *)
Theorem getUnifiedDashboard_real_answer (h : Host) (inputs : WizardState)
    (w : World) (delay : Z) (r : Response) (d : jsvalue) :
  isMockMode h = false -> inputs_missing inputs = false -> cache_miss h inputs w ->
  timeout h = Some delay -> 0 <= delay <= delay_limit h ->
  let key := generateCacheKey inputs in
  let c0 := snd (CacheLayer.get (now_at_get h) key (cache w)) in
  let received :=
    request_sent h inputs w
      ++ [Logged info (lit "Real API response received"); Validated d] in
  fetch h (baseURL h ++ lit "/wizard/dashboard") key inputs = Responded r ->
  ok r = true -> json r = Return d -> d <> VNull -> d <> VUndefined ->
  getUnifiedDashboard h inputs w
  = if success (validateDashboard d) then
      (Return d,
       {| cache := <[ key := {| value := d;
                                expiresAt := now_at_set h + 3600000 |} ]> c0;
          trace := received
                     ++ [Logged info (lit "Dashboard validated successfully");
                         CacheSet key] |})
    else
      (Throw (Error (lit "Error")
                (lit "Invalid dashboard structure: "
                 ++ join (lit ", ") (default [] (errors (validateDashboard d))))),
       {| cache := c0;
          trace := received ++ [Logged error (lit "Dashboard validation failed")] |}).
Proof.
  intros Hmock Hin Hmiss Hdelay [Hlo Hhi] key c0 received Hfetch Hok Hjson
    Hnull Hundef.
  subst key c0 received.
  rewrite getUnifiedDashboard_miss by done.
  rewrite getUnifiedDashboard_real_dispatch by done.
  unfold AbortSignal_timeout. rewrite Hdelay.
  destruct (Z.leb_spec 0 delay), (Z.leb_spec delay (delay_limit h));
    cbn [andb]; try lia.
  rewrite Hfetch, Hok, Hjson.
  destruct d; try done;
    destruct (success (validateDashboard _)); cbn [cache trace];
    by rewrite <- ?app_assoc.
Qed.

Lemma getUnifiedDashboard_real_answer_witness :
  getUnifiedDashboard (real_host (sample_payload (62 # 100)) 1000)
    scenario_inputs empty_world
  = (Return (sample_payload (62 # 100)),
     {| cache := {[ generateCacheKey scenario_inputs
                    := {| value := sample_payload (62 # 100);
                          expiresAt := 1150 + 3600000 |} ]};
        trace := request_sent (real_host (sample_payload (62 # 100)) 1000)
                   scenario_inputs empty_world
                   ++ [Logged info (lit "Real API response received");
                       Validated (sample_payload (62 # 100));
                       Logged info (lit "Dashboard validated successfully");
                       CacheSet (generateCacheKey scenario_inputs)] |}).
Proof.
  assert (0 <= 30000 <= 4294967295) as Hdelay by lia.
  pose proof (getUnifiedDashboard_real_answer
                (real_host (sample_payload (62 # 100)) 1000) scenario_inputs
                empty_world 30000 _ (sample_payload (62 # 100))
                eq_refl eq_refl eq_refl eq_refl Hdelay
                eq_refl eq_refl eq_refl) as H.
  cbv zeta in H. rewrite H by discriminate.
  assert (success (validateDashboard (sample_payload (62 # 100))) = true) as ->
    by (vm_compute; reflexivity).
  rewrite <- app_assoc. reflexivity.
Defined.

(** ** The HTTP route: its replies *)

(** X16.  On a cache that holds only valid dashboards, every reply of the
    route is either 200 with a body that passes the contract, or 400, 405
    or 500 with a body of the two fields "error" and "message"; 405 is
    the reply to every method other than POST; a 400 or 405 reply leaves
    the cache and the log as they were; and the cache still holds only
    valid dashboards afterwards. *)
Theorem handler_replies (h : Host) (req : Request) (w : World) :
  cache_valid (cache w) ->
  let reply := fst (handler h req w) in
  let w' := snd (handler h req w) in
  cache_valid (cache w')
  /\ ((statusCode reply = 200
       /\ success (validateDashboard (replyBody reply)) = true)
      \/ (statusCode reply ∈ [400; 405; 500]
          /\ exists err msg, reply = error_reply (statusCode reply) err msg))
  /\ (statusCode reply = 405 <-> method req <> lit "POST")
  /\ (statusCode reply = 400 \/ statusCode reply = 405 -> w' = w).
Proof.
  intros Hvalid reply w'. subst reply w'. unfold handler.
  case_bool_decide as Hm; cbn [negb].
  2:{ cbn [fst snd error_reply statusCode]. split; [done|].
      split; [right; split; [set_solver|by do 2 eexists]|]. done. }
  assert (forall code, code = 405 <-> method req <> lit "POST" -> code <> 405)
    as H405 by (intros code [H1 _] ->; by apply H1).
  unfold handler_try.
  destruct (body req) as [| |location hazards system precision].
  - cbn [fst snd error_reply statusCode]. split; [done|].
    split; [right; split; [set_solver|by do 2 eexists]|].
    split; [split; [discriminate|done]|]. by intros [|].
  - cbn [fst snd error_reply statusCode]. split; [done|].
    split; [right; split; [set_solver|by do 2 eexists]|].
    split; [split; [discriminate|done]|]. by intros [|].
  - destruct (negb (truthy_str location)
              || bool_decide (length (default [] hazards) = 0%nat)).
    + cbn [fst snd error_reply statusCode]. split; [done|].
      split; [right; split; [set_solver|by do 2 eexists]|].
      split; [split; [discriminate|done]|]. done.
    + step_M.
      pose proof (getUnifiedDashboard_cache_valid h
                    {| location_key := location;
                       selected_hazards := default [] hazards;
                       selected_system := system;
                       precision_level := Some (default Approximate precision) |}
                    w Hvalid) as [Hc Hd].
      destruct (getUnifiedDashboard _ _ w) as [[d|e] w1].
      * cbn [fst snd statusCode replyBody] in *. split; [done|].
        split; [left; split; [done|by apply Hd]|].
        split; [split; [discriminate|done]|]. by intros [|].
      * cbn [fst snd error_reply statusCode] in *. split; [done|].
        split; [right; split; [set_solver|by do 2 eexists]|].
        split; [split; [discriminate|done]|]. by intros [|].
Qed.

Lemma handler_replies_witness :
  statusCode
    (fst (handler (real_host (sample_payload (62 # 100)) 1000)
            {| method := lit "GET"; body := BodyUndefined |} empty_world)) = 405.
Proof.
  destruct (handler_replies (real_host (sample_payload (62 # 100)) 1000)
              {| method := lit "GET"; body := BodyUndefined |} empty_world)
    as (_ & _ & H405 & _).
  - intros k e Hk. unfold empty_world in Hk. cbn [cache] in Hk.
    by rewrite lookup_empty in Hk.
  - apply H405. discriminate.
Defined.

(** ** The wizard flow: what every sequence of events keeps *)

Section Wizard.

Import WizardFlow WizardHandlers.

Lemma run_flow_snoc actions a w :
  run_flow (actions ++ [a]) w = act (run_flow actions w) a.
Proof. unfold run_flow. by rewrite fold_left_app. Qed.

Lemma setWizardState_cases e st :
  (dashboardData (setWizardState e st) = dashboardData st
   /\ dashboardRequestKey (setWizardState e st) = dashboardRequestKey st
   /\ currentStep (setWizardState e st) = currentStep st
   /\ (deps_changed e (wizardState st) = true ->
       is_Some (dashboardData st) -> truthy_str (dashboardRequestKey st) = true ->
       Some (generateDashboardKey (apply_edit e (wizardState st)))
       = dashboardRequestKey st))
  \/ (dashboardData (setWizardState e st) = None
      /\ currentStep (setWizardState e st)
         = (if currentStep st >? 3 then 3 else currentStep st)).
Proof.
  unfold setWizardState, invalidate.
  destruct (deps_changed e (wizardState st)); cbn [dashboardData];
    [|left; by repeat split].
  destruct (dashboardData st) as [d|] eqn:Hd; [|left; by repeat split].
  cbn [dashboardRequestKey wizardState].
  destruct (truthy_str (dashboardRequestKey st)) eqn:Hk; cbn [andb].
  - case_bool_decide as Hsame; cbn [negb].
    + left. cbn [dashboardData dashboardRequestKey currentStep].
      by repeat split.
    + right. by cbn [dashboardData currentStep].
  - left. cbn [dashboardData dashboardRequestKey currentStep].
    by repeat split.
Qed.

Lemma setWizardState_wizardState e st :
  wizardState (setWizardState e st) = apply_edit e (wizardState st).
Proof.
  unfold setWizardState, invalidate.
  destruct (deps_changed e (wizardState st)); [|done].
  cbn [dashboardData dashboardRequestKey wizardState].
  destruct (dashboardData st); [|done].
  by destruct (_ && _).
Qed.

Lemma setWizardState_bounded e st : bounded st -> bounded (setWizardState e st).
Proof.
  intros (Hstep & Hpast). unfold bounded.
  destruct (setWizardState_cases e st) as [(-> & _ & -> & _) | (-> & ->)];
    [done|].
  split; destruct (Z.gtb_spec (currentStep st) 3); lia.
Qed.

Lemma setWizardState_consistent e st :
  consistent st -> consistent (setWizardState e st).
Proof.
  intros (Hb & Hkey). split; [by apply setWizardState_bounded|].
  rewrite setWizardState_wizardState.
  destruct (setWizardState_cases e st)
    as [(-> & -> & _ & Hsame) | (-> & _)]; [|by intros [? ?]].
  intros Hd. destruct (deps_changed e (wizardState st)) eqn:Hdeps.
  - symmetry. apply Hsame; [done..|].
    rewrite Hkey by done. apply generateDashboardKey_truthy.
  - rewrite Hkey by done. f_equal. symmetry. by apply deps_unchanged_same_key.
Qed.

(** What [handleNext] does before its [await]. *)
Lemma handleNext_begin_cases st :
  (exists st', handleNext_begin st = Navigated st'
     /\ wizardState st' = wizardState st
     /\ dashboardData st' = dashboardData st
     /\ dashboardRequestKey st' = dashboardRequestKey st
     /\ (currentStep st' = currentStep st
         \/ (currentStep st' = currentStep st + 1 /\ currentStep st < 6
             /\ (currentStep st = 3 \/ canProceed st = true)
             /\ (currentStep st = 3 -> is_Some (dashboardData st)))))
  \/ (exists st', handleNext_begin st
                  = Awaiting (generateDashboardKey (wizardState st)) st'
        /\ wizardState st' = wizardState st
        /\ dashboardData st' = dashboardData st
        /\ dashboardRequestKey st' = dashboardRequestKey st
        /\ currentStep st' = currentStep st
        /\ currentStep st = 3).
Proof.
  unfold handleNext_begin.
  destruct (Z.eqb_spec (currentStep st) 3) as [H3|H3]; cbn [andb].
  - destruct (canProceed st) eqn:Hcan.
    + destruct (negb _ || negb _) eqn:Hfetch.
      * right. eexists. by repeat split.
      * left. apply orb_false_elim in Hfetch as [Hdata _].
        apply negb_false_iff, bool_decide_eq_true in Hdata.
        eexists. split; [done|]. unfold set_step.
        cbn [wizardState dashboardData dashboardRequestKey currentStep].
        do 3 (split; [done|]). right.
        split; [lia|]. split; [lia|]. split; [by left|done].
    + rewrite andb_false_r. left. eexists. split; [done|].
      do 3 (split; [done|]). by left.
  - destruct ((currentStep st <? STEPS_length) && canProceed st) eqn:Hlt.
    + apply andb_prop in Hlt as [Hlt Hcan]. apply Z.ltb_lt in Hlt.
      unfold STEPS_length in Hlt. left. eexists. split; [done|].
      unfold set_step.
      cbn [wizardState dashboardData dashboardRequestKey currentStep].
      do 3 (split; [done|]). right.
      split; [done|]. split; [done|]. split; [by right|done].
    + left. eexists. split; [done|]. do 3 (split; [done|]). by left.
Qed.

Lemma handleNext_begin_bounded st :
  bounded st ->
  match handleNext_begin st with
  | Navigated st' | Awaiting _ st' => bounded st'
  end.
Proof.
  intros (Hstep & Hpast).
  destruct (handleNext_begin_cases st)
    as [(st' & -> & _ & Hd & _ & Hs) | (st' & -> & _ & Hd & _ & Hs & _)];
    unfold bounded; rewrite Hd.
  - destruct Hs as [-> | (-> & Hlt & Hcan & H3)]; [done|].
    split; [lia|]. intros Hnew.
    destruct (decide (currentStep st = 3)) as [Heq|Hne]; [by apply H3|].
    apply Hpast. lia.
  - by rewrite Hs.
Qed.

Lemma handleNext_settle_bounded key c st :
  bounded st -> bounded (handleNext_settle key c st).
Proof.
  intros (Hstep & Hpast). destruct c as [d|e]; unfold bounded;
    cbn [handleNext_settle currentStep dashboardData]; [|done].
  split; [lia|]. by eexists.
Qed.

Lemma act_bounded f a : bounded (flow_state f) -> bounded (flow_state (act f a)).
Proof.
  intros Hb. destruct a as [e|h| | | |]; cbn [act].
  - by apply setWizardState_bounded.
  - destruct (in_flight f); [done|].
    pose proof (handleNext_begin_bounded _ Hb) as Hn.
    by destruct (handleNext_begin (flow_state f)).
  - destruct (in_flight f) as [[key c]|]; [|done].
    by apply handleNext_settle_bounded.
  - destruct Hb as (Hstep & Hpast). cbn [with_state flow_state].
    unfold handleBack. destruct (Z.gtb_spec (currentStep (flow_state f)) 1);
      [|done].
    unfold bounded, set_step. cbn [currentStep dashboardData].
    split; [lia|]. intros ?. apply Hpast. lia.
  - unfold bounded, handleRestart. cbn [with_state flow_state currentStep].
    split; lia.
  - destruct Hb as (Hstep & Hpast). unfold bounded, set_step.
    cbn [with_state flow_state currentStep]. split; lia.
Qed.

Lemma run_flow_bounded actions w : bounded (flow_state (run_flow actions w)).
Proof.
  induction actions as [|a actions IH] using rev_ind.
  - unfold run_flow, start, bounded, initial.
    cbn [fold_left flow_state currentStep]. split; lia.
  - rewrite run_flow_snoc. by apply act_bounded.
Qed.

Lemma act_consistent f a :
  consistent (flow_state f) -> flight_current f ->
  match in_flight f, a with
  | Some _, DoEdit _ | Some _, DoRestart => False
  | _, _ => True
  end ->
  consistent (flow_state (act f a)) /\ flight_current (act f a).
Proof.
  intros Hc Hf Hallowed. unfold flight_current in *.
  assert (bounded (flow_state (act f a))) as Hb'
    by (apply act_bounded; by destruct Hc).
  destruct a as [e|h| | | |]; cbn [act] in *.
  - destruct (in_flight f) eqn:Hfl; [done|].
    cbn [with_state flow_state in_flight]. rewrite Hfl.
    split; [by apply setWizardState_consistent|done].
  - destruct (in_flight f) as [[k0 c0]|] eqn:Hfl.
    { split; [done|]. intros key c. rewrite Hfl. apply Hf. }
    destruct Hc as (Hb & Hkey).
    destruct (handleNext_begin_cases (flow_state f))
      as [(st' & Heq & Hw & Hd & Hk & _) | (st' & Heq & Hw & Hd & Hk & _)];
      rewrite Heq in *; cbn [with_state flow_state in_flight] in *.
    + split; [split; [done|]; by rewrite Hw, Hd, Hk|]. by rewrite Hfl.
    + split; [split; [done|]; by rewrite Hw, Hd, Hk|].
      intros key c [= <- _]. by rewrite Hw.
  - destruct (in_flight f) as [[k0 c0]|] eqn:Hfl;
      [|split; [done|]; intros key c; by rewrite Hfl].
    cbn [flow_state in_flight] in *. split; [|done].
    split; [done|]. specialize (Hf _ _ eq_refl). subst k0.
    destruct Hc as (Hb & Hkey). by destruct c0.
  - cbn [with_state flow_state in_flight] in *.
    destruct Hc as (Hb & Hkey). unfold handleBack in *.
    destruct (_ >? _); by split.
  - destruct (in_flight f) eqn:Hfl; [done|].
    cbn [with_state flow_state in_flight] in *. rewrite Hfl.
    split; [|done]. split; [done|].
    cbn [handleRestart dashboardData]. by intros [? ?].
  - cbn [with_state flow_state in_flight] in *. destruct Hc as (Hb & Hkey).
    by split.
Qed.

Lemma undisturbed_from_consistent actions f :
  consistent (flow_state f) -> flight_current f ->
  undisturbed_from f actions = true ->
  consistent (flow_state (fold_left act actions f)).
Proof.
  revert f. induction actions as [|a actions IH]; intros f Hc Hf Hu; [done|].
  cbn [fold_left]. cbn [undisturbed_from] in Hu.
  destruct (act_consistent f a Hc Hf) as [Hc' Hf'].
  { destruct (in_flight f), a; done. }
  apply IH; [done..|]. destruct (in_flight f), a; done.
Qed.

(** X17.  After any sequence of events in the wizard (calls of
    [setWizardState] followed by the invalidation effect, Next, the
    completion of the awaited call, Back, Restart, "Go to Step 3"), in any
    mode and whatever the orchestrator answers, also when inputs are set
    while the call is awaited: the step is between 1 and 6, and at a step
    past 3 a dashboard is held, so the "Dashboard Needs Regeneration"
    notice, shown only past step 3 without a dashboard, is never shown.
    When no call of [setWizardState] and no restart lands while a call is
    awaited, a dashboard that is held was requested under the key of the
    inputs as they are now. *)
Theorem WizardFlow_consistent (actions : list Action) (w : World) :
  let st := fst (run_actions actions w) in
  1 <= currentStep st <= 6
  /\ (3 < currentStep st -> exists d, dashboardData st = Some d)
  /\ (undisturbed actions w = true ->
      forall d, dashboardData st = Some d ->
        dashboardRequestKey st = Some (generateDashboardKey (wizardState st))).
Proof.
  intros st. subst st. unfold run_actions. cbn [fst].
  destruct (run_flow_bounded actions w) as (Hstep & Hpast).
  split; [done|]. split; [done|]. intros Hu d Hd.
  assert (consistent (flow_state (run_flow actions w))) as (_ & Hkey).
  { apply undisturbed_from_consistent; [| |done].
    - unfold start, consistent, bounded, initial.
      cbn [flow_state currentStep dashboardData].
      split; [split; lia|]. by intros [? ?].
    - by intros key c. }
  apply Hkey. by eexists.
Qed.

(** When the inputs are set while the call is awaited, the effect finds no
    dashboard to invalidate, and the dashboard that then arrives is held
    under the key of the inputs it was requested for, not of the inputs
    as they are. *)
Example WizardFlow_late_location :
  let st := fst (run_actions
                   (late_location (real_host (sample_payload (62 # 100)) 1000))
                   empty_world) in
  dashboardData st = Some (sample_payload (62 # 100))
  /\ dashboardRequestKey st
     = Some (generateDashboardKey
               {| location_key := Some (lit "geo_1");
                  selected_hazards := [lit "Heat"];
                  selected_system := Some (lit "Health");
                  precision_level := None |})
  /\ location_key (wizardState st) = Some (lit "geo_2")
  /\ dashboardRequestKey st <> Some (generateDashboardKey (wizardState st)).
Proof. vm_compute. by repeat split. Qed.

Lemma act_flow_valid f a : flow_valid f -> flow_valid (act f a).
Proof.
  intros Hvalid. pose proof Hvalid as (Hc & Hd & Hf).
  destruct a as [e|h| | | |]; cbn [act].
  - split; [done|]. split; [|done]. cbn [with_state flow_state].
    by destruct (setWizardState_cases e (flow_state f))
      as [(-> & _) | (-> & _)].
  - destruct (in_flight f) eqn:Hfl; [done|].
    destruct (handleNext_begin_cases (flow_state f))
      as [(st' & -> & _ & Hd' & _) | (st' & -> & _ & Hd' & _)].
    + split; [done|]. cbn [with_state flow_state in_flight].
      rewrite Hd', Hfl. by split.
    + pose proof (getUnifiedDashboard_cache_valid h
                    (wizardState (flow_state f)) (flow_world f) Hc)
        as [Hc' Hr].
      split; [done|]. cbn [flow_state in_flight]. rewrite Hd'.
      split; [done|]. intros key d [= _ Hret]. by apply Hr.
  - destruct (in_flight f) as [[key [d|err]]|] eqn:Hfl; [| |done].
    + split; [done|]. split; [|done].
      cbn [flow_state handleNext_settle dashboardData].
      intros d' [= <-]. by apply (Hf key).
    + split; [done|]. by split.
  - split; [done|]. split; [|done]. cbn [with_state flow_state].
    unfold handleBack. by destruct (_ >? _).
  - split; [done|]. by split.
  - split; [done|]. by split.
Qed.

(** X18.  When the cache holds only valid dashboards at the first render
    (an empty cache, say), the dashboard the wizard holds after any
    sequence of actions passes the contract. *)
Theorem WizardFlow_displays_valid (actions : list Action) (w : World)
    (d : jsvalue) :
  cache_valid (cache w) ->
  dashboardData (fst (run_actions actions w)) = Some d ->
  success (validateDashboard d) = true.
Proof.
  intros Hc.
  assert (flow_valid (run_flow actions w)) as (_ & H & _).
  { induction actions as [|a actions IH] using rev_ind.
    - by repeat split.
    - rewrite run_flow_snoc. by apply act_flow_valid. }
  apply H.
Qed.

Lemma WizardFlow_displays_valid_witness :
  success (validateDashboard (sample_payload (62 # 100))) = true.
Proof.
  apply (WizardFlow_displays_valid
           (first_run (real_host (sample_payload (62 # 100)) 1000))
           empty_world (sample_payload (62 # 100))).
  - intros k e Hk. unfold empty_world in Hk. cbn [cache] in Hk.
    by rewrite lookup_empty in Hk.
  - vm_compute. reflexivity.
Defined.

(** X19.  At step 4, 5 or 6, with a dashboard held under the key of the
    current inputs (and a system selected), Back followed by Next returns
    to the same state without calling the orchestrator: nothing is read
    from or written to the cache, and nothing is fetched. *)
Theorem handleBack_handleNext (h : Host) (st : State) (w : World) (d : jsvalue) :
  4 <= currentStep st <= 6 ->
  dashboardData st = Some d ->
  dashboardRequestKey st = Some (generateDashboardKey (wizardState st)) ->
  truthy_str (selected_system (wizardState st)) = true ->
  handleNext h (handleBack st) w = (st, w).
Proof.
  destruct st as [step ws data loading err key].
  cbn [currentStep dashboardData dashboardRequestKey wizardState].
  intros Hstep -> -> Hsys.
  unfold handleBack, handleNext, handleNext_begin, canProceed, set_step,
    STEPS_length.
  cbn [currentStep dashboardData dashboardRequestKey wizardState].
  assert (step = 4 \/ step = 5 \/ step = 6) as [-> | [-> | ->]] by lia;
    repeat match goal with
      | |- context [(?a - ?b)%Z] =>
          let v := eval vm_compute in (a - b)%Z in change (a - b)%Z with v
      | |- context [(?a + ?b)%Z] =>
          let v := eval vm_compute in (a + b)%Z in change (a + b)%Z with v
      | |- context [(?a =? ?b)%Z] =>
          let v := eval vm_compute in (a =? b)%Z in change (a =? b)%Z with v
      | |- context [(?a <? ?b)%Z] =>
          let v := eval vm_compute in (a <? b)%Z in change (a <? b)%Z with v
      | |- context [(?a >? ?b)%Z] =>
          let v := eval vm_compute in (a >? b)%Z in change (a >? b)%Z with v
      end;
    cbn [andb orb negb currentStep dashboardData dashboardRequestKey wizardState];
    rewrite ?Hsys;
    rewrite !bool_decide_eq_true_2 by (done || by eexists); done.
Qed.

Lemma handleBack_handleNext_witness :
  handleNext mock_host (handleBack displayed_state) empty_world
  = (displayed_state, empty_world).
Proof.
  apply (handleBack_handleNext mock_host displayed_state empty_world
           (sample_payload (62 # 100))).
  - cbn. lia.
  - reflexivity.
  - reflexivity.
  - reflexivity.
Defined.

Lemma act_mock_mode f a :
  in_mock_mode a = true -> flow_stuck f -> flow_stuck (act f a).
Proof.
  intros Hmock Hstuck. pose proof Hstuck as (Hstep & Hdata & Hc & Hf).
  destruct a as [e|h| | | |]; cbn [act in_mock_mode] in *.
  - unfold flow_stuck. cbn [with_state flow_state flow_world in_flight].
    destruct (setWizardState_cases e (flow_state f))
      as [(Hd & _ & Hs & _) | (Hd & Hs)]; rewrite Hd, Hs;
      (split; [|by repeat split]); [done|].
    destruct (Z.gtb_spec (currentStep (flow_state f)) 3); lia.
  - destruct (in_flight f) eqn:Hfl; [done|].
    destruct (handleNext_begin_cases (flow_state f))
      as [(st' & -> & _ & Hd' & _ & Hs) | (st' & -> & _ & Hd' & _ & Hs & _)];
      unfold flow_stuck; cbn [with_state flow_state flow_world in_flight].
    + rewrite Hd', Hfl. split; [|by repeat split].
      destruct Hs as [-> | (-> & _ & _ & H3)]; [done|].
      destruct (decide (currentStep (flow_state f) = 3)) as [Heq|Hne]; [|lia].
      rewrite Hdata in H3. by destruct (H3 Heq).
    + rewrite Hd', Hs.
      destruct (getUnifiedDashboard_mock_empty h (wizardState (flow_state f))
                  (flow_world f) Hmock Hc) as [Hthrow Hc'].
      do 3 (split; [done|]). by intros key c [= _ <-].
  - destruct (in_flight f) as [[key c]|] eqn:Hfl; [|done].
    destruct (Hf _ _ eq_refl) as [err ->].
    unfold flow_stuck.
    cbn [flow_state flow_world in_flight handleNext_settle currentStep
           dashboardData]. by repeat split.
  - unfold flow_stuck. cbn [with_state flow_state flow_world in_flight].
    unfold handleBack.
    destruct (Z.gtb_spec (currentStep (flow_state f)) 1); [|done].
    unfold set_step. cbn [currentStep dashboardData].
    split; [lia|done].
  - unfold flow_stuck, handleRestart.
    cbn [with_state flow_state flow_world in_flight currentStep dashboardData].
    split; [lia|done].
  - unfold flow_stuck, set_step.
    cbn [with_state flow_state flow_world in_flight currentStep dashboardData].
    split; [lia|done].
Qed.

(** X20.  In mock mode the wizard never gets past step 3: from an empty
    cache, after any sequence of actions whose orchestrator calls all run
    in mock mode, the step is at most 3, no dashboard is held and the
    cache is empty. *)
Theorem WizardFlow_mock_mode_stuck (actions : list Action) (w : World) :
  Forall (fun a => in_mock_mode a = true) actions ->
  cache w = ∅ ->
  currentStep (fst (run_actions actions w)) <= 3
  /\ dashboardData (fst (run_actions actions w)) = None
  /\ cache (snd (run_actions actions w)) = ∅.
Proof.
  intros Hmock Hc.
  assert (flow_stuck (run_flow actions w)) as (Hs & Hd & Hc' & _).
  { induction actions as [|a actions IH] using rev_ind.
    - unfold run_flow, start, flow_stuck, initial.
      cbn [fold_left flow_state flow_world in_flight currentStep dashboardData].
      split; [lia|]. by repeat split.
    - apply Forall_app in Hmock as [Hmock Ha%Forall_inv].
      rewrite run_flow_snoc. apply act_mock_mode; [done|by apply IH]. }
  done.
Qed.

Lemma WizardFlow_mock_mode_stuck_witness :
  currentStep (fst (run_actions (first_run mock_host) empty_world)) <= 3
  /\ dashboardData (fst (run_actions (first_run mock_host) empty_world)) = None
  /\ cache (snd (run_actions (first_run mock_host) empty_world)) = ∅.
Proof.
  apply (WizardFlow_mock_mode_stuck (first_run mock_host) empty_world).
  - repeat constructor.
  - reflexivity.
Defined.

End Wizard.

(** ** The hazard step: toggling a hazard *)

Lemma filter_other_notin (id : jsstring) (l : list jsstring) :
  id ∉ l -> filter (fun h => h <> id) l = l.
Proof.
  induction l as [|x l IH]; [done|]. intros Hnotin.
  apply not_elem_of_cons in Hnotin as [Hne Hnotin].
  rewrite filter_cons. destruct (decide (x <> id)) as [_|Heq]; [|by destruct Heq].
  by rewrite IH.
Qed.

Lemma filter_other_permutation (id : jsstring) (l : list jsstring) :
  NoDup l -> id ∈ l -> l ≡ₚ filter (fun h => h <> id) l ++ [id].
Proof.
  induction l as [|x l IH]; intros Hnd Hin; [by apply elem_of_nil in Hin|].
  apply NoDup_cons in Hnd as [Hx Hnd]. rewrite filter_cons.
  destruct (decide (x <> id)) as [Hne|Heq].
  - apply elem_of_cons in Hin as [->|Hin]; [done|].
    cbn [app]. f_equiv. by apply IH.
  - apply dec_stable in Heq as ->.
    rewrite filter_other_notin by done. apply Permutation_cons_append.
Qed.

(** X21.  Toggling a hazard flips whether it is selected and keeps the
    list free of duplicates; toggling the same hazard a second time gives
    the selection back up to order (a hazard that was selected moves to
    the end; one that was not leaves the inputs exactly as they were), so
    the cache key and the dashboard key are what they were. *)
Theorem toggleHazard_twice (s : WizardState) (hazardId : jsstring) :
  NoDup (selected_hazards s) ->
  let s1 := WizardFlow.apply_edit (ClimateHazardStep.toggleHazard hazardId s) s in
  let s2 := WizardFlow.apply_edit (ClimateHazardStep.toggleHazard hazardId s1) s1 in
  (hazardId ∈ selected_hazards s1 <-> hazardId ∉ selected_hazards s)
  /\ NoDup (selected_hazards s1)
  /\ selected_hazards s2 ≡ₚ selected_hazards s
  /\ (hazardId ∉ selected_hazards s -> s2 = s)
  /\ generateCacheKey s2 = generateCacheKey s
  /\ WizardFlow.generateDashboardKey s2 = WizardFlow.generateDashboardKey s.
Proof.
  destruct s as [loc hazards sys prec]. intros Hnd s1 s2.
  cbn [selected_hazards] in Hnd.
  change (selected_hazards
            {| location_key := loc; selected_hazards := hazards;
               selected_system := sys; precision_level := prec |})
    with hazards.
  assert (selected_hazards s2 ≡ₚ hazards
          /\ (hazardId ∈ selected_hazards s1 <-> hazardId ∉ hazards)
          /\ NoDup (selected_hazards s1)
          /\ (hazardId ∉ hazards -> selected_hazards s2 = hazards))
    as (Hperm & Hflip & Hnd1 & Hsame).
  { subst s1 s2. unfold ClimateHazardStep.toggleHazard, WizardFlow.apply_edit.
    cbn [selected_hazards WizardFlow.edit_hazards from_option default id].
    destruct (decide (hazardId ∈ hazards)) as [Hin|Hin].
    - rewrite !(bool_decide_eq_true_2 _ Hin).
      rewrite bool_decide_eq_false_2
        by (rewrite list_elem_of_filter; by intros [? _]).
      split; [symmetry; by apply filter_other_permutation|].
      split; [rewrite list_elem_of_filter; split; [by intros [? _]|done]|].
      split; [by apply NoDup_filter|done].
    - rewrite !(bool_decide_eq_false_2 _ Hin).
      rewrite bool_decide_eq_true_2 by (apply elem_of_app; right; by left).
      rewrite filter_app, filter_other_notin by done.
      rewrite filter_cons. destruct (decide (hazardId <> hazardId)); [done|].
      rewrite filter_nil, app_nil_r.
      split; [done|]. split; [split; [done|intros _; apply elem_of_app; right; by left]|].
      split; [|done]. apply NoDup_app. split; [done|].
      split; [|apply NoDup_singleton].
      intros x Hx ->%list_elem_of_singleton. done. }
  split; [done|]. split; [done|]. split; [done|].
  split; [intros Hnotin; specialize (Hsame Hnotin); subst s1 s2;
          unfold WizardFlow.apply_edit in *;
          cbn [selected_hazards location_key selected_system precision_level
               ClimateHazardStep.toggleHazard WizardFlow.edit_location_key
               WizardFlow.edit_system WizardFlow.edit_precision] in *;
          by f_equal|].
  split.
  - unfold generateCacheKey, precision_or_default.
    by rewrite (sort_permutation _ _ Hperm).
  - unfold WizardFlow.generateDashboardKey, precision_or_default.
    by rewrite (sort_permutation _ _ Hperm).
Qed.

Lemma toggleHazard_twice_witness :
  let s1 := WizardFlow.apply_edit
              (ClimateHazardStep.toggleHazard (lit "Heat") scenario_inputs)
              scenario_inputs in
  let s2 := WizardFlow.apply_edit
              (ClimateHazardStep.toggleHazard (lit "Heat") s1) s1 in
  selected_hazards s2 ≡ₚ [lit "Heat"; lit "Flood"]
  /\ generateCacheKey s2 = generateCacheKey scenario_inputs.
Proof.
  destruct (toggleHazard_twice scenario_inputs (lit "Heat"))
    as (_ & _ & Hperm & _ & Hkey & _).
  - apply (bool_decide_unpack _). by vm_compute.
  - split; [exact Hperm | exact Hkey].
Defined.

(** ** The API client against the route *)

(** X23.  Against the route of this repository, [getDashboard] of the API
    client never returns a dashboard: the client names the hazards
    [hazards] and the system [system], the route reads [selected_hazards]
    and [selected_system], so whatever the request holds the route answers
    400 and the client throws the body of that answer,
    [{error: "invalid_request", message: "Missing required fields:
    location_key, selected_hazards"}]; the orchestrator is not called. *)
Theorem WizardAPIClient_getDashboard_rejected (server : Host)
    (request : WizardAPIClient.DashboardRequest) (w : World) :
  WizardAPIClient.getDashboard server request w
  = (Throw (NonError
              (obj [ ("error", str "invalid_request");
                     ("message",
                      str "Missing required fields: location_key, selected_hazards") ])),
     w).
Proof.
  unfold WizardAPIClient.getDashboard, WizardAPIClient.request_body.
  by rewrite handler_missing_location_or_hazards by (by right).
Qed.
